(** * translate_html.py: translation-memory-backed HTML translation

    A shallow embedding of [src/translate_html.py] and the properties of
    its resolver ([apply_translation]), its provider chain, its memory
    store and its file pipeline.

    Conventions of the embedding:
    - a Python [str] is the list of its Unicode code points ([pystr]);
    - the translation memory (a Python [dict] from [str] to [str]) is a
      [gmap pystr pystr]; it is passed by reference in the source and
      threaded explicitly here;
    - everything the program does to the outside (log records, HTTP
      requests, file-system calls) is appended, in order, to a trace;
    - the answers of the outside (translation services, JSON and HTML
      libraries) are fields of an environment record [Env]: every theorem
      holds for all of them, and the services may answer differently each
      time because they are given the requests made so far;
    - a Python exception that leaves a function is the result [Raise]. *)

From Stdlib Require Import ZArith NArith Ascii String.
From Stdlib.Strings Require Import Byte.
From stdpp Require Import base decidable option list countable gmap fin_maps.

Local Open Scope N_scope.

(** ** Python strings *)

(** A Python [str]: the sequence of its code points. *)
Abbreviation pystr := (list N).

(** A literal of the source, written as a Rocq string of ASCII characters. *)
Definition str (s : string) : pystr := N_of_ascii <$> list_ascii_of_string s.

(** The characters [str.strip()] removes: CPython's [_PyUnicode_IsWhitespace]. *)
Definition isspace (c : N) : bool :=
  ((9 <=? c) && (c <=? 13)) || ((28 <=? c) && (c <=? 32))
  || (c =? 133) || (c =? 160) || (c =? 5760)
  || ((8192 <=? c) && (c <=? 8202))
  || (c =? 8232) || (c =? 8233) || (c =? 8239) || (c =? 8287) || (c =? 12288).

Fixpoint lstrip (s : pystr) : pystr :=
  match s with
  | [] => []
  | c :: s' => if isspace c then lstrip s' else s
  end.

Definition rstrip (s : pystr) : pystr := reverse (lstrip (reverse s)).

(** [s.strip()] *)
Definition strip (s : pystr) : pystr := rstrip (lstrip s).

(** [s.startswith(p)] *)
Fixpoint startswith (s p : pystr) : bool :=
  match p, s with
  | [], _ => true
  | _ :: _, [] => false
  | a :: p', c :: s' => if decide (a = c) then startswith s' p' else false
  end.

(** [s.endswith(p)] *)
Definition endswith (s p : pystr) : bool := startswith (reverse s) (reverse p).

(** [s.replace(old, new)] for a non-empty [old]: every occurrence of [old],
    found from left to right without overlap, becomes [new].  [skip] counts
    the characters of a match that are still to be dropped. *)
Fixpoint replace_from (old new : pystr) (skip : nat) (s : pystr) : pystr :=
  match s with
  | [] => []
  | c :: s' =>
      match skip with
      | S k => replace_from old new k s'
      | O =>
          if startswith s old
          then new ++ replace_from old new (Nat.pred (length old)) s'
          else c :: replace_from old new O s'
      end
  end.

(** [s.replace(old, new)]; with an empty [old] Python puts [new] before
    every character and at the end. *)
Definition replace (s old new : pystr) : pystr :=
  match old with
  | [] => foldr (fun c r => new ++ c :: r) new s
  | _ :: _ => replace_from old new O s
  end.

Definition dot_html : pystr := str ".html".

(** [f"-{target_lang}.html"] *)
Definition lang_suffix (target_lang : pystr) : pystr :=
  str "-" ++ target_lang ++ dot_html.

Definition backslash : N := 92.
Definition newline : N := 10.

(** [re.sub(r'\.html$', repl, s)].  Without the MULTILINE flag [$] matches at
    the end of the string and just before a newline that ends the string, so
    the pattern has a match exactly when [s] ends in [".html"] or in
    [".html\n"], and that match is the only one.  [repl] is taken literally,
    which is what [re.sub] does with a replacement that has no backslash;
    the properties below are stated for such replacements. *)
Definition re_sub_dot_html_end (repl s : pystr) : pystr :=
  if endswith s dot_html
  then take (length s - length dot_html)%nat s ++ repl
  else if endswith s (dot_html ++ [newline])
  then take (length s - S (length dot_html))%nat s ++ repl ++ [newline]
  else s.

(** ** UTF-8, as [open(..., encoding='utf-8')] decodes and encodes *)

Definition is_cont (b : N) : bool := (128 <=? b) && (b <=? 191).

(** Strict decoding: [None] is Python's [UnicodeDecodeError]. *)
Fixpoint utf8_decode_N (fuel : nat) (bs : list N) : option pystr :=
  match fuel with
  | O => match bs with [] => Some [] | _ => None end
  | S fuel' =>
      match bs with
      | [] => Some []
      | b0 :: r0 =>
          if b0 <? 128 then cons b0 <$> utf8_decode_N fuel' r0
          else if (194 <=? b0) && (b0 <=? 223) then
            match r0 with
            | b1 :: r1 =>
                if is_cont b1
                then cons ((b0 - 192) * 64 + (b1 - 128)) <$> utf8_decode_N fuel' r1
                else None
            | _ => None
            end
          else if (224 <=? b0) && (b0 <=? 239) then
            match r0 with
            | b1 :: b2 :: r2 =>
                if is_cont b1 && is_cont b2
                   && negb ((b0 =? 224) && (b1 <? 160))
                   && negb ((b0 =? 237) && (159 <? b1))
                then cons ((b0 - 224) * 4096 + (b1 - 128) * 64 + (b2 - 128))
                       <$> utf8_decode_N fuel' r2
                else None
            | _ => None
            end
          else if (240 <=? b0) && (b0 <=? 244) then
            match r0 with
            | b1 :: b2 :: b3 :: r3 =>
                if is_cont b1 && is_cont b2 && is_cont b3
                   && negb ((b0 =? 240) && (b1 <? 144))
                   && negb ((b0 =? 244) && (143 <? b1))
                then cons ((b0 - 240) * 262144 + (b1 - 128) * 4096
                           + (b2 - 128) * 64 + (b3 - 128))
                       <$> utf8_decode_N fuel' r3
                else None
            | _ => None
            end
          else None
      end
  end.

Definition utf8_decode (bs : list byte) : option pystr :=
  utf8_decode_N (length bs) (Byte.to_N <$> bs).

Definition byte_of_N (n : N) : byte :=
  match Byte.of_N n with Some b => b | None => x00 end.

(** Encoding of one code point; surrogates and values past U+10FFFF have
    none ([UnicodeEncodeError]). *)
Definition utf8_encode_char (c : N) : option (list byte) :=
  if c <? 128 then Some [byte_of_N c]
  else if c <? 2048 then
    Some [byte_of_N (192 + c / 64); byte_of_N (128 + c mod 64)]
  else if (55296 <=? c) && (c <=? 57343) then None
  else if c <? 65536 then
    Some [byte_of_N (224 + c / 4096); byte_of_N (128 + (c / 64) mod 64);
          byte_of_N (128 + c mod 64)]
  else if c <? 1114112 then
    Some [byte_of_N (240 + c / 262144); byte_of_N (128 + (c / 4096) mod 64);
          byte_of_N (128 + (c / 64) mod 64); byte_of_N (128 + c mod 64)]
  else None.

Fixpoint utf8_encode (s : pystr) : option (list byte) :=
  match s with
  | [] => Some []
  | c :: s' =>
      match utf8_encode_char c, utf8_encode s' with
      | Some bs, Some r => Some (bs ++ r)
      | _, _ => None
      end
  end.

(** Universal newlines of a file read in text mode: ["\r\n"] and ["\r"]
    become ["\n"]. *)
Fixpoint universal_newlines (s : pystr) : pystr :=
  match s with
  | [] => []
  | c :: s' =>
      if c =? 13 then
        match s' with
        | d :: s'' => if d =? 10 then universal_newlines s' else 10 :: universal_newlines s'
        | [] => [10]
        end
      else c :: universal_newlines s'
  end.

(** ** Exceptions, log records and the trace *)

(** The exception classes the program can meet.  [OtherException] stands for
    any other subclass of [Exception] (a failed request, a missing key of a
    response, ...). *)
Inductive exn :=
  | JSONDecodeError
  | UnicodeDecodeError
  | UnicodeEncodeError
  | OSError
  | KeyError
  | OtherException.

Inductive result (A : Type) :=
  | Ok (a : A)
  | Raise (e : exn).
Arguments Ok {A} a.
Arguments Raise {A} e.

Inductive Level := DEBUG | INFO | WARNING | ERROR.

(** One constructor per logging call of the source, with the values its
    f-string interpolates. *)
Inductive LogMsg :=
  | MsgErrorParsingMemory                      (* load_memory *)
  | MsgFailedToSaveMemory (e : exn)            (* save_memory *)
  | MsgTryingLibre (server : pystr)            (* translate_with_libre *)
  | MsgLibreServerFailed (server : pystr) (e : exn)
  | MsgAllLibreFailed
  | MsgNoDeeplKey                              (* translate_with_deepl *)
  | MsgAttemptingDeepl
  | MsgDeeplStatus (status_code : Z)
  | MsgDeeplFailed (e : exn)
  | MsgOpenAIUnavailable                       (* refine_with_gpt *)
  | MsgRefiningWithGpt
  | MsgGptFailed (e : exn)
  | MsgFoundInMemory (original30 stored30 : pystr)   (* apply_translation *)
  | MsgTranslating (original50 : pystr)
  | MsgLibreReturnedOriginal
  | MsgTranslationFailed (original50 : pystr)
  | MsgTranslationResult (final50 : pystr)
  | MsgInjectedHead (tag : pystr)              (* inject_code *)
  | MsgInjectedBody (tag : pystr)
  | MsgOutputExists (output_path : pystr)      (* translate_html_file *)
  | MsgProcessing (file_path : pystr)
  | MsgFileEmpty (file_path : pystr)
  | MsgFailedReadParse (file_path : pystr) (e : exn)
  | MsgNoHtmlTag (file_path : pystr)
  | MsgUpdatedLink (href : pystr)
  | MsgSaved (output_path : pystr) (translation_count : nat)
  | MsgFailedToSave (output_path : pystr) (e : exn)
  | MsgTranslationComplete (success_count total : nat) (lang : pystr). (* __main__ *)

(** What the program does to the outside, in the order it does it. *)
Inductive Event :=
  | Log (lvl : Level) (msg : LogMsg)
  | LibrePost (server text target : pystr)     (* requests.post(f"{server}/translate", ...) *)
  | DeeplPost (key text target_lang_code : pystr)  (* requests.post(api-free.deepl.com ...) *)
  | GptCreate (prompt : pystr)                 (* openai.chat.completions.create *)
  | FsExists (path : pystr)                    (* os.path.exists *)
  | FsOpenRead (path : pystr)                  (* open(path, 'r', encoding='utf-8') *)
  | FsOpenWrite (path : pystr).                (* open(path, 'w', encoding='utf-8') *)

Global Instance exn_eq_dec : EqDecision exn.
Proof. solve_decision. Defined.
Global Instance Level_eq_dec : EqDecision Level.
Proof. solve_decision. Defined.
Global Instance LogMsg_eq_dec : EqDecision LogMsg.
Proof. solve_decision. Defined.
Global Instance Event_eq_dec : EqDecision Event.
Proof. solve_decision. Defined.

(** ** The file system and the state of the outside *)

Inductive node :=
  | File (data : list byte)
  | Dir.

Record World := mkWorld {
  fs : gmap pystr node;
  trace : list Event
}.

(** [w] after the events [evs]. *)
Definition extend (w : World) (evs : list Event) : World :=
  {| fs := fs w; trace := trace w ++ evs |}.

Definition emit (e : Event) (w : World) : World := extend w [e].

(** The requests made to the outside: every event but the log records.  The
    outside cannot see the log, so its answers depend on the requests made
    so far only. *)
Definition is_request (e : Event) : bool :=
  match e with
  | Log _ _ => false
  | _ => true
  end.

Definition requests (evs : list Event) : list Event :=
  filter (fun e => is_request e) evs.

Definition history (w : World) : list Event := requests (trace w).

Definition set_fs (f : gmap pystr node) (w : World) : World :=
  {| fs := f; trace := trace w |}.

(** ** A state and exception monad *)

Definition M (S A : Type) : Type := S -> result A * S.

Global Instance M_ret {S} : MRet (M S) := fun A a s => (Ok a, s).

Global Instance M_bind {S} : MBind (M S) := fun A B k m s =>
  match m s with
  | (Ok a, s') => k a s'
  | (Raise e, s') => (Raise e, s')
  end.

Definition raise {S A} (e : exn) : M S A := fun s => (Raise e, s).

(** [try: m except ...: h e]; a handler re-raises the classes its [except]
    clause does not name. *)
Definition try_except {S A} (m : M S A) (h : exn -> M S A) : M S A :=
  fun s =>
    match m s with
    | (Ok a, s') => (Ok a, s')
    | (Raise e, s') => h e s'
    end.

(** A computation on the outside alone, run where a memory is in scope. *)
Definition lift {A} (m : M World A) : M (gmap pystr pystr * World) A :=
  fun s =>
    match m (snd s) with
    | (r, w') => (r, (fst s, w'))
    end.

Definition log (lvl : Level) (msg : LogMsg) : M World unit :=
  fun w => (Ok tt, emit (Log lvl msg) w).

(** The truth value of [os.getenv(...)]: [None] and the empty string are
    false. *)
Definition truthy (v : option pystr) : bool :=
  match v with
  | Some (_ :: _) => true
  | _ => false
  end.

(** ** Configuration of the source *)

Definition TRANSLATION_MEMORY : pystr := str "translation_db.json".

(** The double quote inside the literals below. *)
Definition dq : pystr := [34].

Definition INJECT_HEAD : list pystr :=
  [ str "<meta name=" ++ dq ++ str "robots" ++ dq ++ str " content=" ++ dq
      ++ str "index, follow" ++ dq ++ str ">";
    str "<meta name=" ++ dq ++ str "viewport" ++ dq ++ str " content=" ++ dq
      ++ str "width=device-width, initial-scale=1.0" ++ dq ++ str ">" ].

Definition INJECT_BODY : list pystr :=
  [ str "<script src=" ++ dq ++ str "/scripts/custom.js" ++ dq ++ str "></script>";
    str "<script>console.log(" ++ dq ++ str "Translated version loaded" ++ dq
      ++ str ")</script>" ].

Record LangInfo := mkLang { lang_name : pystr; lang_deepl : pystr }.

Definition LANG_MAP : gmap pystr LangInfo :=
  list_to_map
    [ (str "fr", mkLang (str "French") (str "FR"));
      (str "es", mkLang (str "Spanish") (str "ES"));
      (str "de", mkLang (str "German") (str "DE")) ].

Definition LIBRE_SERVERS : list pystr :=
  [ str "https://translate.argosopentech.com";
    str "https://libretranslate.de";
    str "https://libretranslate.com" ].

(** ** The document, as the program sees it through BeautifulSoup *)

Record Tag := mkTag {
  tag_name : pystr;
  attrs : gmap pystr pystr
}.

(** A [NavigableString]: its text and the name of its parent. *)
Record TextNode := mkText {
  parent_name : pystr;
  content : pystr
}.

Record Soup := mkSoup {
  html_attrs : option (gmap pystr pystr);  (* soup.html and its attributes *)
  link_img_tags : list Tag;                (* soup.find_all(['a', 'img']) *)
  strings : list TextNode;                 (* soup.find_all(string=True) *)
  head_appended : option (list pystr);     (* soup.head, what was appended to it *)
  body_appended : option (list pystr)      (* soup.body, what was appended to it *)
}.

(** ** The outside *)

(** The response of a LibreTranslate server: [response.ok] and
    [response.json()["translatedText"]] ([None] when that expression
    raises). *)
Record LibreResponse := mkLibre {
  libre_ok : bool;
  libre_translatedText : option pystr
}.

(** The response of DeepL: [r.status_code] and
    [r.json()["translations"][0]["text"]] ([None] when that raises). *)
Record DeeplResponse := mkDeepl {
  deepl_status_code : Z;
  deepl_text : option pystr
}.

Record Env := mkEnv {
  (** [os.getenv("DEEPL_API_KEY")], [os.getenv("OPENAI_API_KEY")] *)
  DEEPL_API_KEY : option pystr;
  OPENAI_API_KEY : option pystr;
  (** whether [import openai] succeeds *)
  openai_importable : bool;
  (** [requests.post] to a LibreTranslate server, given the requests made so
      far, the server, the text and the target; [None] when it raises *)
  libre_post : list Event -> pystr -> pystr -> pystr -> option LibreResponse;
  (** [requests.post] to DeepL, given the requests made so far, the key, the
      text and the target code; [None] when it raises *)
  deepl_post : list Event -> pystr -> pystr -> pystr -> option DeeplResponse;
  (** [openai.chat.completions.create(...).choices[0].message.content], given
      the requests made so far and the prompt; [None] when any of it raises *)
  gpt_content : list Event -> pystr -> option pystr;
  (** [json.loads] on the text of the memory file; [None] is
      [json.JSONDecodeError].  A well-formed memory file holds an object of
      strings, which is what [save_memory] writes. *)
  json_loads : pystr -> option (gmap pystr pystr);
  (** the chunks [json.dump(memory, f, ensure_ascii=False, indent=2)]
      writes, in order *)
  json_iterencode : gmap pystr pystr -> list pystr;
  (** [BeautifulSoup(content, 'html.parser')] *)
  BeautifulSoup : pystr -> result Soup;
  (** [str(soup.prettify())] *)
  prettify : Soup -> result pystr
}.

(** The state of a computation that holds the memory dictionary: the
    dictionary the source passes by reference, and the outside. *)
Abbreviation MemState := (gmap pystr pystr * World)%type.

(** [original in memory] and [memory[original]] *)
Definition memory_get (k : pystr) : M MemState (option pystr) :=
  fun s => (Ok (fst s !! k), s).

(** [memory[k] = v] *)
Definition memory_set (k v : pystr) : M MemState unit :=
  fun s => (Ok tt, (<[k := v]> (fst s), snd s)).

(** [LANG_MAP[target_lang]] *)
Definition lang_info {S} (target_lang : pystr) : M S LangInfo :=
  match LANG_MAP !! target_lang with
  | Some info => mret info
  | None => raise KeyError
  end.

Section Program.

Context (env : Env).

(** [has_openai], set when the module is loaded. *)
Definition has_openai : bool :=
  truthy (OPENAI_API_KEY env) && openai_importable env.

(** ** Translation functions *)

Definition requests_post_libre (server text target_lang : pystr)
  : M World LibreResponse :=
  fun w =>
    match libre_post env (history w) server text target_lang with
    | Some response => (Ok response, emit (LibrePost server text target_lang) w)
    | None => (Raise OtherException, emit (LibrePost server text target_lang) w)
    end.

(** The loop of [translate_with_libre] over the servers still to try. *)
Fixpoint translate_with_libre_from (servers : list pystr)
    (text target_lang : pystr) : M World pystr :=
  match servers with
  | [] =>
      log WARNING MsgAllLibreFailed;;
      mret text
  | server :: servers' =>
      returned ← try_except
        (log DEBUG (MsgTryingLibre server);;
         response ← requests_post_libre server text target_lang;
         if libre_ok response
         then match libre_translatedText response with
              | Some translated => mret (Some translated)
              | None => raise OtherException
              end
         else mret None)
        (fun e => log DEBUG (MsgLibreServerFailed server e);; mret None);
      match returned with
      | Some translated => mret translated
      | None => translate_with_libre_from servers' text target_lang
      end
  end.

Definition translate_with_libre (text target_lang : pystr) : M World pystr :=
  translate_with_libre_from LIBRE_SERVERS text target_lang.

Definition requests_post_deepl (key text target_lang_code : pystr)
  : M World DeeplResponse :=
  fun w =>
    match deepl_post env (history w) key text target_lang_code with
    | Some r => (Ok r, emit (DeeplPost key text target_lang_code) w)
    | None => (Raise OtherException, emit (DeeplPost key text target_lang_code) w)
    end.

Definition translate_with_deepl (text target_lang_code : pystr) : M World pystr :=
  match DEEPL_API_KEY env with
  | Some (c :: key) =>
      try_except
        (log DEBUG MsgAttemptingDeepl;;
         r ← requests_post_deepl (c :: key) text target_lang_code;
         if negb (deepl_status_code r =? 200)%Z
         then log WARNING (MsgDeeplStatus (deepl_status_code r));;
              mret text
         else match deepl_text r with
              | Some translated => mret translated
              | None => raise OtherException
              end)
        (fun e => log WARNING (MsgDeeplFailed e);; mret text)
  | _ =>
      log DEBUG MsgNoDeeplKey;;
      mret text
  end.

(** The f-string of [refine_with_gpt]. *)
Definition gpt_prompt (name text translation : pystr) : pystr :=
  str "Improve this " ++ name ++ str " translation if needed." ++ [newline]
  ++ str "English: " ++ text ++ [newline]
  ++ str "Translation: " ++ translation.

Definition openai_create (prompt : pystr) : M World pystr :=
  fun w =>
    match gpt_content env (history w) prompt with
    | Some c => (Ok c, emit (GptCreate prompt) w)
    | None => (Raise OtherException, emit (GptCreate prompt) w)
    end.

Definition refine_with_gpt (text translation target_lang : pystr) : M World pystr :=
  if negb has_openai
  then log DEBUG MsgOpenAIUnavailable;;
       mret translation
  else
    try_except
      (log DEBUG MsgRefiningWithGpt;;
       info ← lang_info target_lang;
       c ← openai_create (gpt_prompt (lang_name info) text translation);
       mret (strip c))
      (fun e => log WARNING (MsgGptFailed e);; mret translation).

(** [apply_translation(text, memory, target_lang)]; [memory] is the
    dictionary of the state. *)
Definition apply_translation (text target_lang : pystr) : M MemState pystr :=
  let original := strip text in
  if decide (original = []) then mret original
  else
    hit ← memory_get original;
    match hit with
    | Some stored =>
        lift (log DEBUG (MsgFoundInMemory (take 30 original) (take 30 stored)));;
        mret stored
    | None =>
        lift (log INFO (MsgTranslating (take 50 original)));;
        libre ← lift (translate_with_libre original target_lang);
        deepl ← (if decide (libre = original)
                 then lift (log DEBUG MsgLibreReturnedOriginal);;
                      info ← lang_info target_lang;
                      lift (translate_with_deepl original (lang_deepl info))
                 else mret libre);
        if decide (deepl = original)
        then lift (log WARNING (MsgTranslationFailed (take 50 original)));;
             memory_set original original;;
             mret original
        else
          final ← lift (refine_with_gpt original deepl target_lang);
          memory_set original final;;
          lift (log DEBUG (MsgTranslationResult (take 50 final)));;
          mret final
    end.

End Program.

(** ** Files *)

(** [os.path.exists(path)] *)
Definition os_path_exists (path : pystr) : M World bool :=
  fun w => (Ok (bool_decide (is_Some (fs w !! path))), emit (FsExists path) w).

(** [open(path, 'r', encoding='utf-8')]: the bytes of a regular file; a
    missing path or a directory raises [OSError]. *)
Definition open_read (path : pystr) : M World (list byte) :=
  fun w =>
    match fs w !! path with
    | Some (File data) => (Ok data, emit (FsOpenRead path) w)
    | _ => (Raise OSError, emit (FsOpenRead path) w)
    end.

(** [f.read()] of a file opened in text mode as UTF-8. *)
Definition f_read {S} (data : list byte) : M S pystr :=
  match utf8_decode data with
  | Some text => mret (universal_newlines text)
  | None => raise UnicodeDecodeError
  end.

(** [open(path, 'w', encoding='utf-8')]: creates or empties the file; a
    directory raises [OSError]. *)
Definition open_write (path : pystr) : M World unit :=
  fun w =>
    match fs w !! path with
    | Some Dir => (Raise OSError, emit (FsOpenWrite path) w)
    | _ => (Ok tt, set_fs (<[path := File []]> (fs w)) (emit (FsOpenWrite path) w))
    end.

(** [f.write(text)] on the file opened at [path]. *)
Definition f_write (path text : pystr) : M World unit :=
  fun w =>
    match utf8_encode text, fs w !! path with
    | Some bytes, Some (File data) =>
        (Ok tt, set_fs (<[path := File (data ++ bytes)]> (fs w)) w)
    | None, _ => (Raise UnicodeEncodeError, w)
    | _, _ => (Raise OSError, w)
    end.

(** A [for] loop that builds the list of the values of its body. *)
Fixpoint for_each {S A B : Type} (body : A -> M S B) (l : list A) : M S (list B) :=
  match l with
  | [] => mret []
  | x :: l' =>
      y ← body x;
      ys ← for_each body l';
      mret (y :: ys)
  end.

(** Runs a computation that holds a memory dictionary on [memory]; the
    dictionary it leaves is returned with the value. *)
Definition with_memory {A : Type} (memory : gmap pystr pystr) (m : M MemState A)
  : M World (A * gmap pystr pystr) :=
  fun w =>
    match m (memory, w) with
    | (Ok a, (memory', w')) => (Ok (a, memory'), w')
    | (Raise e, (_, w')) => (Raise e, w')
    end.

Definition set_attr (name value : pystr) (tag : Tag) : Tag :=
  mkTag (tag_name tag) (<[name := value]> (attrs tag)).

Section Pipeline.

Context (env : Env).

(** ** Load/save memory *)

Definition load_memory : M World (gmap pystr pystr) :=
  present ← os_path_exists TRANSLATION_MEMORY;
  if (present : bool)
  then
    try_except
      (data ← open_read TRANSLATION_MEMORY;
       text ← f_read data;
       match json_loads env text with
       | Some memory => mret memory
       | None => raise JSONDecodeError
       end)
      (fun e =>
         match e with
         | JSONDecodeError =>
             log ERROR MsgErrorParsingMemory;;
             mret ∅
         | _ => raise e
         end)
  else mret ∅.

Definition save_memory (memory : gmap pystr pystr) : M World unit :=
  try_except
    (open_write TRANSLATION_MEMORY;;
     for_each (f_write TRANSLATION_MEMORY) (json_iterencode env memory);;
     mret tt)
    (fun e => log ERROR (MsgFailedToSaveMemory e);; mret tt).

(** ** The document walker *)

(** The body of [for attr in ['alt', 'title']] on an image. *)
Definition translate_attr (target_lang attr : pystr) (tag : Tag) : M MemState Tag :=
  match attrs tag !! attr with
  | Some (c :: value) =>
      translated ← apply_translation env (c :: value) target_lang;
      mret (set_attr attr translated tag)
  | _ => mret tag
  end.

(** The link rewrite of the body of [for tag in soup.find_all(['a', 'img'])]. *)
Definition localize_link (target_lang : pystr) (tag : Tag) : M World Tag :=
  if decide (tag_name tag = str "a")
  then
    match attrs tag !! str "href" with
    | Some (c :: h) =>
        let href := c :: h in
        if endswith href dot_html && negb (endswith href (lang_suffix target_lang))
        then
          let href' := re_sub_dot_html_end (lang_suffix target_lang) href in
          log DEBUG (MsgUpdatedLink href');;
          mret (set_attr (str "href") href' tag)
        else mret tag
    | _ => mret tag
    end
  else mret tag.

(** The body of [for tag in soup.find_all(['a', 'img'])]. *)
Definition process_tag (target_lang : pystr) (tag : Tag) : M MemState Tag :=
  tag1 ← lift (localize_link target_lang tag);
  if decide (tag_name tag1 = str "img")
  then
    tag2 ← translate_attr target_lang (str "alt") tag1;
    translate_attr target_lang (str "title") tag2
  else mret tag1.

(** The body of [for element in soup.find_all(string=True)]: the node it
    leaves and whether it was replaced. *)
Definition process_string (target_lang : pystr) (element : TextNode)
  : M MemState (TextNode * bool) :=
  if decide (parent_name element = str "script")
  then mret (element, false)
  else if decide (parent_name element = str "style")
  then mret (element, false)
  else
    let clean := strip (content element) in
    if decide (clean = []) then mret (element, false)
    else
      translated ← apply_translation env clean target_lang;
      if decide (translated = clean) then mret (element, false)
      else mret (mkText (parent_name element) translated, true).

Definition append_all (lvl_msg : pystr -> LogMsg) (section : option (list pystr))
    (tags : list pystr) : M World (option (list pystr)) :=
  match section with
  | Some children =>
      for_each (fun tag => log DEBUG (lvl_msg tag)) tags;;
      mret (Some (children ++ tags))
  | None => mret None
  end.

Definition inject_code (soup : Soup) : M World Soup :=
  head' ← append_all MsgInjectedHead (head_appended soup) INJECT_HEAD;
  body' ← append_all MsgInjectedBody (body_appended soup) INJECT_BODY;
  mret (mkSoup (html_attrs soup) (link_img_tags soup) (strings soup) head' body').

(** ** The file pipeline *)

(** [file_path.replace(".html", f"-{target_lang}.html")] *)
Definition output_path_of (file_path target_lang : pystr) : pystr :=
  replace file_path dot_html (lang_suffix target_lang).

(** The part of [translate_html_file] between parsing and writing. *)
Definition walk (file_path target_lang : pystr) (soup : Soup)
  : M MemState (Soup * nat) :=
  html' ← match html_attrs soup with
          | Some a => mret (Some (<[str "lang" := target_lang]> a))
          | None => lift (log WARNING (MsgNoHtmlTag file_path));; mret None
          end;
  tags' ← for_each (process_tag target_lang) (link_img_tags soup);
  walked ← for_each (process_string target_lang) (strings soup);
  let translation_count := length (filter (fun r => snd r = true) walked) in
  soup' ← lift (inject_code
                  (mkSoup html' tags' (fst <$> walked)
                     (head_appended soup) (body_appended soup)));
  mret (soup', translation_count).

Definition translate_html_file (file_path target_lang : pystr) (force : bool)
  : M World bool :=
  memory ← load_memory;
  let output_path := output_path_of file_path target_lang in
  present ← os_path_exists output_path;
  if (present : bool) && negb force
  then log INFO (MsgOutputExists output_path);;
       mret false
  else
    parsed ← try_except
      (log INFO (MsgProcessing file_path);;
       data ← open_read file_path;
       text ← f_read data;
       if decide (strip text = [])
       then log WARNING (MsgFileEmpty file_path);;
            mret None
       else match BeautifulSoup env text with
            | Ok soup => mret (Some soup)
            | Raise e => raise e
            end)
      (fun e => log ERROR (MsgFailedReadParse file_path e);; mret None);
    match parsed with
    | None => mret false
    | Some soup =>
        walked ← with_memory memory (walk file_path target_lang soup);
        let '((soup', translation_count), memory') := walked in
        try_except
          (open_write output_path;;
           text ← match prettify env soup' with
                  | Ok t => mret t
                  | Raise e => raise e
                  end;
           f_write output_path text;;
           log INFO (MsgSaved output_path translation_count);;
           save_memory memory';;
           mret true)
          (fun e => log ERROR (MsgFailedToSave output_path e);; mret false)
    end.

(** The loop of [__main__]: [for file in html_files]. *)
Fixpoint translate_files (html_files : list pystr) (lang : pystr) (force : bool)
    (success_count : nat) : M World nat :=
  match html_files with
  | [] => mret success_count
  | file :: rest =>
      translated ← translate_html_file file lang force;
      translate_files rest lang force
        (if (translated : bool) then S success_count else success_count)
  end.

(** The end of [__main__], from [# Process each file]. *)
Definition process_each_file (html_files : list pystr) (lang : pystr) (force : bool)
  : M World nat :=
  success_count ← translate_files html_files lang force 0%nat;
  log INFO (MsgTranslationComplete success_count (length html_files) lang);;
  mret success_count.

End Pipeline.

(** ** The resolver as the specification describes it *)

(** The specification's provider chain (section 4.2) and resolver (section
    4.3), over any three providers that follow the contract
    [attempt(text, target_language) -> string]. *)
Section Specification.

Context (bulk paid : pystr -> pystr -> M World pystr).
Context (refinement : pystr -> pystr -> pystr -> M World pystr).

(** Strategy 1, the bulk provider; strategy 2, the paid provider, "invoked
    only when strategy 1 failed", failure being "returned text equals input
    text"; strategy 3, the refinement pass, "invoked only when strategies 1
    or 2 produced a non-identical result". *)
Definition provider_chain (text target_language : pystr) : M World pystr :=
  first ← bulk text target_language;
  candidate ← (if decide (first = text)
               then paid text target_language
               else mret first);
  if decide (candidate = text)
  then mret text
  else refinement text candidate target_language.

(** Steps 1 to 5 of the algorithm of [resolve]. *)
Definition resolve (text target_language : pystr) : M MemState pystr :=
  let trimmed := strip text in
  if decide (trimmed = []) then mret trimmed
  else
    hit ← memory_get trimmed;
    match hit with
    | Some stored => mret stored
    | None =>
        final ← lift (provider_chain trimmed target_language);
        if decide (final = trimmed)
        then memory_set trimmed trimmed;;
             mret trimmed
        else memory_set trimmed final;;
             mret final
    end.

End Specification.

(** The paid provider of the source behind the contract of the
    specification: [apply_translation] calls it with the code [LANG_MAP]
    gives for the target language. *)
Definition deepl_attempt (env : Env) (text target_lang : pystr) : M World pystr :=
  info ← lang_info target_lang;
  translate_with_deepl env text (lang_deepl info).

(** What can be seen of a run of the resolver: its result, the memory, the
    files and the requests made. *)
Definition observe {A} (run : result A * MemState)
  : result A * gmap pystr pystr * gmap pystr node * list Event :=
  (fst run, fst (snd run), fs (snd (snd run)), history (snd (snd run))).

(** The first two stages of [apply_translation] on a miss: the value of its
    variable [deepl]. *)
Definition candidate_translation (env : Env) (original target_lang : pystr)
  : M MemState pystr :=
  libre ← lift (translate_with_libre env original target_lang);
  if decide (libre = original)
  then lift (log DEBUG MsgLibreReturnedOriginal);;
       info ← lang_info target_lang;
       lift (translate_with_deepl env original (lang_deepl info))
  else mret libre.

(** ** Reading the trace *)

Inductive Provider := Bulk | Paid | Refinement.

(** The provider function an event comes from: its requests and its own log
    records. *)
Definition provider_of (e : Event) : option Provider :=
  match e with
  | LibrePost _ _ _ => Some Bulk
  | Log _ (MsgTryingLibre _) => Some Bulk
  | Log _ (MsgLibreServerFailed _ _) => Some Bulk
  | Log _ MsgAllLibreFailed => Some Bulk
  | DeeplPost _ _ _ => Some Paid
  | Log _ MsgNoDeeplKey => Some Paid
  | Log _ MsgAttemptingDeepl => Some Paid
  | Log _ (MsgDeeplStatus _) => Some Paid
  | Log _ (MsgDeeplFailed _) => Some Paid
  | GptCreate _ => Some Refinement
  | Log _ MsgOpenAIUnavailable => Some Refinement
  | Log _ MsgRefiningWithGpt => Some Refinement
  | Log _ (MsgGptFailed _) => Some Refinement
  | _ => None
  end.

(** Occurrences of a value in a list. *)
Definition occ {A} `{EqDecision A} (x : A) (l : list A) : nat :=
  length (filter (fun y => y = x) l).

(** The events of one turn of the loop of [translate_with_libre]. *)
Definition one_try (server text lang : pystr) (pre : list Event) : Prop :=
  Forall (fun e => provider_of e = Some Bulk) pre
  /\ forall s t l,
       (occ (LibrePost s t l) pre <= occ s [server])%nat
       /\ (text <> t -> occ (LibrePost s t l) pre = 0%nat).

(** Two states of the outside that the outside cannot tell apart: the same
    files and the same requests so far. *)
Definition world_equiv (w1 w2 : World) : Prop :=
  fs w1 = fs w2 /\ history w1 = history w2.

(** A computation that does the same in states the outside cannot tell
    apart. *)
Definition Respects {A} (m : M World A) : Prop :=
  forall w1 w2, world_equiv w1 w2 ->
    fst (m w1) = fst (m w2) /\ world_equiv (snd (m w1)) (snd (m w2)).

(** The refinement step fails: the body of the [try] of [refine_with_gpt]
    raises, at the lookup of the language or at the call of the service. *)
Definition refinement_fails (env : Env) (text translation target_lang : pystr)
    (w : World) : Prop :=
  match LANG_MAP !! target_lang with
  | Some info =>
      gpt_content env (history w) (gpt_prompt (lang_name info) text translation)
      = None
  | None => True
  end.

(** A computation that only adds to the trace; [tr] reads the trace of the
    state. *)
Definition Grows {S A} (tr : S -> list Event) (m : M S A) : Prop :=
  forall s, tr s `prefix_of` tr (snd (m s)).

(** The trace of a state that holds a memory. *)
Definition mem_trace (s : MemState) : list Event := trace (snd s).

(** What the link rewrite makes of a [href], in the three cases of the
    specification. *)
Definition localized (target_lang href href' : pystr) : Prop :=
  (forall stem, href = stem ++ dot_html ->
     ~ lang_suffix target_lang `suffix_of` href ->
     href' = stem ++ lang_suffix target_lang)
  /\ (lang_suffix target_lang `suffix_of` href -> href' = href)
  /\ (~ dot_html `suffix_of` href -> href' = href).

(** The events after the first [n]. *)
Definition events_since (n : nat) (w : World) : list Event := drop n (trace w).

Definition first_server : pystr := str "https://translate.argosopentech.com".

(** A run of the provider chain for [t] starts with the request of [t] to the
    first server of [LIBRE_SERVERS], and makes that request once: their
    number is the number of runs of the chain for [t]. *)
Definition chain_runs (t target_lang : pystr) (evs : list Event) : nat :=
  occ (LibrePost first_server t target_lang) evs.

(** A sequence of calls of the resolver on the same memory. *)
Definition resolve_all (env : Env) (texts : list pystr) (target_lang : pystr)
  : M MemState (list pystr) :=
  for_each (fun text => apply_translation env text target_lang) texts.

(** The loads of the memory in a trace: the calls of
    [os.path.exists(TRANSLATION_MEMORY)] that open [load_memory]. *)
Definition memory_loads (evs : list Event) : nat :=
  occ (FsExists TRANSLATION_MEMORY) evs.

(** A part of the trace that opens with the load of the memory. *)
Definition starts_with_load (evs : list Event) : Prop :=
  exists rest, evs = FsExists TRANSLATION_MEMORY :: rest.

(** A part of the trace that closes with [save_memory]: the memory file is
    opened for writing and written, or that fails and is logged. *)
Definition ends_with_save (evs : list Event) : Prop :=
  exists before,
    evs = before ++ [FsOpenWrite TRANSLATION_MEMORY]
    \/ exists e, evs = before ++ [FsOpenWrite TRANSLATION_MEMORY;
                                  Log ERROR (MsgFailedToSaveMemory e)].

(** ** The [--include] option *)

Definition comma : N := 44.
Definition slash : N := 47.

(** [s.split(',')] *)
Fixpoint split_comma (s : pystr) : list pystr :=
  match s with
  | [] => [[]]
  | c :: s' =>
      if c =? comma then [] :: split_comma s'
      else match split_comma s' with
           | part :: parts => (c :: part) :: parts
           | [] => [[c]]
           end
  end.

(** [os.path.basename(path)] *)
Fixpoint basename (path : pystr) : pystr :=
  match path with
  | [] => []
  | c :: path' =>
      if existsb (N.eqb slash) path' then basename path'
      else if c =? slash then path'
      else path
  end.

(** Modelled from the spec: the handling of [--include] in [__main__].  The
    source declares the option (line 255), but the part of [__main__] that
    reads [args.include] is not in src/translate_html.py, whose text breaks
    off inside the handling of [--exclude].  Specification, section 6:
    "--include <comma-list>: restrict processing to specific named files". *)
Definition restrict_to_included (include : option pystr) (html_files : list pystr)
  : list pystr :=
  match include with
  | Some names => filter (fun file => basename file ∈ split_comma names) html_files
  | None => html_files
  end.

(** ** Concrete environments and worlds *)

Definition no_files : World := mkWorld ∅ [].

Definition empty_soup : Soup := mkSoup None [] [] None None.

(** Every LibreTranslate server returns the text as it is, DeepL returns
    ["<code>:<text>"], there is no refinement. *)
Definition env_fallback : Env :=
  {| DEEPL_API_KEY := Some (str "key");
     OPENAI_API_KEY := None;
     openai_importable := false;
     libre_post := fun _ _ text _ => Some (mkLibre true (Some text));
     deepl_post := fun _ _ text code =>
                     Some (mkDeepl 200 (Some (code ++ str ":" ++ text)));
     gpt_content := fun _ _ => None;
     json_loads := fun text => if decide (text = str "{}") then Some ∅ else None;
     json_iterencode := fun _ => [str "{}"];
     BeautifulSoup := fun _ => Ok empty_soup;
     prettify := fun _ => Ok (str "<html></html>") |}.

(** LibreTranslate answers ["Bonjour"], there is no DeepL key, and the
    refinement service is configured but every call of it fails. *)
Definition env_refinement_fails : Env :=
  {| DEEPL_API_KEY := None;
     OPENAI_API_KEY := Some (str "sk");
     openai_importable := true;
     libre_post := fun _ _ _ _ => Some (mkLibre true (Some (str "Bonjour")));
     deepl_post := fun _ _ _ _ => None;
     gpt_content := fun _ _ => None;
     json_loads := fun text => if decide (text = str "{}") then Some ∅ else None;
     json_iterencode := fun _ => [str "{}"];
     BeautifulSoup := fun _ => Ok empty_soup;
     prettify := fun _ => Ok (str "<html></html>") |}.

(** A document with a paragraph and three links. *)
Definition soup_links : Soup :=
  mkSoup (Some ∅)
    [ mkTag (str "a") {[ str "href" := str "about.html" ]};
      mkTag (str "a") {[ str "href" := str "about-fr.html" ]};
      mkTag (str "a") {[ str "href" := str "https://example.com" ]} ]
    [ mkText (str "p") (str "Hello") ]
    (Some []) (Some []).

Definition env_links : Env :=
  {| DEEPL_API_KEY := None;
     OPENAI_API_KEY := None;
     openai_importable := false;
     libre_post := fun _ _ _ _ => Some (mkLibre true (Some (str "Bonjour")));
     deepl_post := fun _ _ _ _ => None;
     gpt_content := fun _ _ => None;
     json_loads := fun text => if decide (text = str "{}") then Some ∅ else None;
     json_iterencode := fun _ => [str "{}"];
     BeautifulSoup := fun _ => Ok soup_links;
     prettify := fun _ => Ok (str "<html></html>") |}.

(** The memory file as [save_memory] leaves it when the write of a memory
    with the key [a] and the value [e-acute] is cut inside the two bytes of
    the value: an opening brace, a newline, two spaces, the quoted key, a
    colon, a space, a quote, and the byte C3. *)
Definition truncated_memory_file : list byte :=
  [x7b; x0a; x20; x20; x22; x61; x22; x3a; x20; x22; xc3].

Definition world_truncated_memory : World :=
  mkWorld {[ TRANSLATION_MEMORY := File truncated_memory_file ]} [].

(** A page whose output path is taken by a directory, and no memory file. *)
Definition world_unwritable_output : World :=
  mkWorld {[ str "./a.html" := File [x3c; x70; x3e];
             str "./a-fr.html" := Dir ]} [].

(** Two pages to translate and no memory file. *)
Definition world_two_pages : World :=
  mkWorld {[ str "./a.html" := File [x3c; x70; x3e];
             str "./b.html" := File [x3c; x70; x3e] ]} [].

(** ** Further readings of the code *)

(** The answer of a LibreTranslate server that [translate_with_libre]
    returns: the request did not raise, the response is [ok] and it holds a
    translated text. *)
Definition usable (response : option LibreResponse) : option pystr :=
  match response with
  | Some r => if libre_ok r then libre_translatedText r else None
  | None => None
  end.

(** The first usable answer of the servers asked in order, each after the
    requests [hist] made before it. *)
Fixpoint first_usable (env : Env) (hist : list Event) (servers : list pystr)
    (text target_lang : pystr) : option pystr :=
  match servers with
  | [] => None
  | server :: servers' =>
      match usable (libre_post env hist server text target_lang) with
      | Some translated => Some translated
      | None =>
          first_usable env (hist ++ [LibrePost server text target_lang])
            servers' text target_lang
      end
  end.

(** The requests made until a server gives a usable answer. *)
Fixpoint libre_requests (env : Env) (hist : list Event) (servers : list pystr)
    (text target_lang : pystr) : list Event :=
  match servers with
  | [] => []
  | server :: servers' =>
      LibrePost server text target_lang ::
      match usable (libre_post env hist server text target_lang) with
      | Some _ => []
      | None =>
          libre_requests env (hist ++ [LibrePost server text target_lang])
            servers' text target_lang
      end
  end.

(** A memory whose keys are trimmed and not empty. *)
Definition stripped_keys (memory : gmap pystr pystr) : Prop :=
  forall k, is_Some (memory !! k) -> strip k = k /\ k <> [].

(** The translation DeepL gives: there is a key, the request does not raise,
    the status is 200 and the response holds a text. *)
Definition deepl_answer (env : Env) (hist : list Event) (text target_lang_code : pystr)
  : option pystr :=
  match DEEPL_API_KEY env with
  | Some (c :: key) =>
      match deepl_post env hist (c :: key) text target_lang_code with
      | Some r => if (deepl_status_code r =? 200)%Z then deepl_text r else None
      | None => None
      end
  | _ => None
  end.

(** The request [translate_with_deepl] makes: one when there is a key. *)
Definition deepl_requests (env : Env) (text target_lang_code : pystr) : list Event :=
  match DEEPL_API_KEY env with
  | Some (c :: key) => [DeeplPost (c :: key) text target_lang_code]
  | _ => []
  end.

(** The refined translation: the refinement is available, the language is a
    key of [LANG_MAP], the call does not raise; its content, trimmed. *)
Definition gpt_answer (env : Env) (hist : list Event)
    (text translation target_lang : pystr) : option pystr :=
  if has_openai env
  then match LANG_MAP !! target_lang with
       | Some info =>
           strip <$> gpt_content env hist
                       (gpt_prompt (lang_name info) text translation)
       | None => None
       end
  else None.

(** The request [refine_with_gpt] makes: one when the refinement is
    available and the language is a key of [LANG_MAP]. *)
Definition gpt_requests (env : Env) (text translation target_lang : pystr)
  : list Event :=
  if has_openai env
  then match LANG_MAP !! target_lang with
       | Some info => [GptCreate (gpt_prompt (lang_name info) text translation)]
       | None => []
       end
  else [].

(** A computation that changes no file but those [allowed]; [wd] reads the
    outside of the state. *)
Definition Touches {S A} (wd : S -> World) (allowed : pystr -> Prop) (m : M S A)
  : Prop :=
  forall s p, ~ allowed p -> fs (wd (snd (m s))) !! p = fs (wd s) !! p.

(** What [load_memory] gives on a state of the files. *)
Definition loaded (env : Env) (files : gmap pystr node)
  : result (gmap pystr pystr) :=
  match files !! TRANSLATION_MEMORY with
  | None => Ok ∅
  | Some Dir => Raise OSError
  | Some (File data) =>
      match utf8_decode data with
      | None => Raise UnicodeDecodeError
      | Some text => Ok (default ∅ (json_loads env (universal_newlines text)))
      end
  end.

Definition carriage_return : N := 13.

(** The [try] of [translate_html_file] that reads and parses the input: the
    document, or [None] where the source returns [False]. *)
Definition read_and_parse (env : Env) (file_path : pystr) : M World (option Soup) :=
  try_except
    (log INFO (MsgProcessing file_path);;
     data ← open_read file_path;
     text ← f_read data;
     if decide (strip text = [])
     then log WARNING (MsgFileEmpty file_path);;
          mret None
     else match BeautifulSoup env text with
          | Ok soup => mret (Some soup)
          | Raise e => raise e
          end)
    (fun e => log ERROR (MsgFailedReadParse file_path e);; mret None).

(** The [try] of [translate_html_file] that writes the output and saves the
    memory. *)
Definition write_and_save (env : Env) (output_path : pystr) (soup' : Soup)
    (translation_count : nat) (memory' : gmap pystr pystr) : M World bool :=
  try_except
    (open_write output_path;;
     text ← match prettify env soup' with
            | Ok t => mret t
            | Raise e => raise e
            end;
     f_write output_path text;;
     log INFO (MsgSaved output_path translation_count);;
     save_memory env memory';;
     mret true)
    (fun e => log ERROR (MsgFailedToSave output_path e);; mret false).

(** The document [translate_html_file] gets from its input on a state of the
    files: none when the input is missing, a directory, not UTF-8, blank, or
    when the parser raises. *)
Definition parsed_input (env : Env) (files : gmap pystr node) (file_path : pystr)
  : option Soup :=
  match files !! file_path with
  | Some (File data) =>
      match utf8_decode data with
      | Some text =>
          if decide (strip (universal_newlines text) = []) then None
          else match BeautifulSoup env (universal_newlines text) with
               | Ok soup => Some soup
               | Raise _ => None
               end
      | None => None
      end
  | _ => None
  end.

(** What [translate_html_file] gives when it stops before the walk: [False],
    unless [load_memory] raised. *)
Definition stopped (env : Env) (files : gmap pystr node) : result bool :=
  match loaded env files with
  | Ok _ => Ok false
  | Raise e => Raise e
  end.

(** A computation that raises only the exceptions of [P]. *)
Definition Raises {S A} (P : exn -> Prop) (m : M S A) : Prop :=
  forall s e, fst (m s) = Raise e -> P e.

(** [p in s] *)
Fixpoint occurs (p s : pystr) : bool :=
  startswith s p
  || match s with
     | [] => false
     | _ :: s' => occurs p s'
     end.

(** A computation that keeps every entry of the memory with its value. *)
Definition Extends {A : Type} (m : M MemState A) : Prop :=
  forall s, fst s ⊆ fst (snd (m s)).

(** * Properties *)

(** ** Worlds and traces *)

Lemma extend_extend (w : World) (a b : list Event) :
  extend (extend w a) b = extend w (a ++ b).
Proof. unfold extend; simpl. by rewrite <- app_assoc. Qed.

Lemma extend_nil (w : World) : extend w [] = w.
Proof. destruct w; unfold extend; simpl. by rewrite app_nil_r. Qed.

Lemma events_since_extend (w : World) (evs : list Event) :
  events_since (length (trace w)) (extend w evs) = evs.
Proof. unfold events_since. simpl. by rewrite drop_app_length. Qed.

Lemma occ_app {A} `{EqDecision A} (x : A) (l1 l2 : list A) :
  occ x (l1 ++ l2) = (occ x l1 + occ x l2)%nat.
Proof. unfold occ. by rewrite filter_app, length_app. Qed.

Lemma occ_none {A} `{EqDecision A} (x : A) (l : list A) :
  Forall (fun y => y <> x) l -> occ x l = 0%nat.
Proof.
  unfold occ. induction 1 as [|y l Hy _ IH]; [done|].
  by rewrite filter_cons_False.
Qed.

Lemma occ_cons {A} `{EqDecision A} (x y : A) (l : list A) :
  occ x (y :: l) = ((if decide (y = x) then 1 else 0) + occ x l)%nat.
Proof.
  unfold occ. destruct (decide (y = x)) as [Hy|Hy].
  - by rewrite filter_cons_True.
  - by rewrite filter_cons_False.
Qed.

Lemma occ_nil {A} `{EqDecision A} (x : A) : occ x [] = 0%nat.
Proof. reflexivity. Qed.

Ltac count_occ := rewrite ?occ_app, ?occ_cons, ?occ_nil in *;
  repeat case_decide; simplify_eq; simpl in *; try lia.

Section ProviderFacts.

Context (env : Env).

Ltac run := unfold mbind, M_bind, mret, M_ret, try_except, raise, log,
  requests_post_libre, requests_post_deepl, openai_create; simpl.

Lemma one_try_post (server text lang : pystr) :
  one_try server text lang
    [Log DEBUG (MsgTryingLibre server); LibrePost server text lang].
Proof.
  split; [by repeat constructor|]. intros s t l.
  split; [|intros Hne]; count_occ.
Qed.

Lemma one_try_failed (server text lang : pystr) (e : exn) :
  one_try server text lang
    [Log DEBUG (MsgTryingLibre server); LibrePost server text lang;
     Log DEBUG (MsgLibreServerFailed server e)].
Proof.
  split; [by repeat constructor|]. intros s t l.
  split; [|intros Hne]; count_occ.
Qed.

(** The bulk provider never raises, leaves the files alone, and emits only
    its own events: for each server it tries, one request for [text]. *)
Lemma translate_with_libre_from_spec (servers : list pystr) (text lang : pystr) (w : World) :
  exists r evs,
    translate_with_libre_from env servers text lang w = (Ok r, extend w evs)
    /\ Forall (fun e => provider_of e = Some Bulk) evs
    /\ forall s t l,
         (occ (LibrePost s t l) evs <= occ s servers)%nat
         /\ (text <> t -> occ (LibrePost s t l) evs = 0%nat).
Proof.
  revert w. induction servers as [|server rest IH]; intros w.
  - exists text, [Log WARNING MsgAllLibreFailed]. split; [done|].
    split; [by repeat constructor|]. intros s t l. split; [|done]. count_occ.
  - assert (Hnext : forall pre, one_try server text lang pre ->
        exists r evs,
          translate_with_libre_from env rest text lang (extend w pre)
            = (Ok r, extend w evs)
          /\ Forall (fun e => provider_of e = Some Bulk) evs
          /\ forall s t l,
               (occ (LibrePost s t l) evs <= occ s (server :: rest))%nat
               /\ (text <> t -> occ (LibrePost s t l) evs = 0%nat)).
    { intros pre [Hpre Hocc]. destruct (IH (extend w pre)) as (r & evs & Hrun & Hev & Hcount).
      exists r, (pre ++ evs). rewrite Hrun, extend_extend. split; [done|].
      split; [by apply Forall_app|]. intros s t l.
      destruct (Hocc s t l) as [H1 H2], (Hcount s t l) as [H3 H4].
      rewrite occ_app. split.
      - change (server :: rest) with ([server] ++ rest). rewrite occ_app. lia.
      - intros Hne. rewrite H2, H4; done. }
    simpl. run.
    destruct (libre_post env (history (emit (Log DEBUG (MsgTryingLibre server)) w))
                server text lang) as [[ok translated]|] eqn:Hpost; simpl.
    + destruct ok; [destruct translated as [translated|]|]; simpl;
        unfold emit; rewrite ?extend_extend; simpl.
      * exists translated, [Log DEBUG (MsgTryingLibre server); LibrePost server text lang].
        split; [done|]. destruct (one_try_post server text lang) as [H1 H2].
        split; [done|]. intros s t l. destruct (H2 s t l) as [H3 H4].
        split; [|done]. change (server :: rest) with ([server] ++ rest).
        rewrite occ_app. lia.
      * apply (Hnext _ (one_try_failed server text lang OtherException)).
      * apply (Hnext _ (one_try_post server text lang)).
    + unfold emit; rewrite ?extend_extend; simpl.
      apply (Hnext _ (one_try_failed server text lang OtherException)).
Qed.

Lemma translate_with_libre_spec (text lang : pystr) (w : World) :
  exists r evs,
    translate_with_libre env text lang w = (Ok r, extend w evs)
    /\ Forall (fun e => provider_of e = Some Bulk) evs
    /\ forall t,
         (chain_runs t lang evs <= 1)%nat
         /\ (text <> t -> chain_runs t lang evs = 0%nat).
Proof.
  destruct (translate_with_libre_from_spec LIBRE_SERVERS text lang w)
    as (r & evs & Hrun & Hev & Hcount).
  exists r, evs. split; [done|]. split; [done|]. intros t.
  destruct (Hcount first_server t lang) as [H1 H2]. split; [|done].
  unfold chain_runs. etrans; [exact H1|]. by vm_compute.
Qed.

(** The paid provider never raises and emits only its own events. *)
Lemma translate_with_deepl_spec (text code : pystr) (w : World) :
  exists r evs,
    translate_with_deepl env text code w = (Ok r, extend w evs)
    /\ Forall (fun e => provider_of e = Some Paid) evs.
Proof.
  unfold translate_with_deepl.
  destruct (DEEPL_API_KEY env) as [[|c key]|]; run;
    try (by exists text, [Log DEBUG MsgNoDeeplKey]; split; [|repeat constructor]).
  destruct (deepl_post env _ _ _ _) as [[status translated]|]; simpl;
    unfold emit; rewrite ?extend_extend; simpl.
  - destruct (status =? 200)%Z; simpl; [destruct translated as [translated|]|];
      simpl; unfold emit; rewrite ?extend_extend; simpl;
      eexists _, _; (split; [reflexivity|]); by repeat constructor.
  - eexists _, _; (split; [reflexivity|]); by repeat constructor.
Qed.

(** Without a credential the paid provider passes its input through. *)
Lemma translate_with_deepl_no_key (text code : pystr) (w : World) :
  truthy (DEEPL_API_KEY env) = false ->
  translate_with_deepl env text code w
  = (Ok text, extend w [Log DEBUG MsgNoDeeplKey]).
Proof.
  unfold translate_with_deepl. by destruct (DEEPL_API_KEY env) as [[|c key]|].
Qed.

(** The refinement pass never raises and emits only its own events. *)
Lemma refine_with_gpt_spec (text translation lang : pystr) (w : World) :
  exists r evs,
    refine_with_gpt env text translation lang w = (Ok r, extend w evs)
    /\ Forall (fun e => provider_of e = Some Refinement) evs.
Proof.
  unfold refine_with_gpt, lang_info. destruct (has_openai env); run.
  - destruct (LANG_MAP !! lang) as [info|]; run;
      [destruct (gpt_content env _ _) as [c|]|]; simpl;
      unfold emit; rewrite ?extend_extend; simpl;
      eexists _, _; (split; [reflexivity|]); by repeat constructor.
  - eexists _, _; (split; [reflexivity|]); by repeat constructor.
Qed.

(** Without its credential the refinement pass passes the candidate
    through. *)
Lemma refine_with_gpt_unavailable (text translation lang : pystr) (w : World) :
  has_openai env = false ->
  refine_with_gpt env text translation lang w
  = (Ok translation, extend w [Log DEBUG MsgOpenAIUnavailable]).
Proof. unfold refine_with_gpt. by intros ->. Qed.

Lemma history_extend (w : World) (evs : list Event) :
  history (extend w evs) = history w ++ requests evs.
Proof. unfold history, requests. simpl. by rewrite filter_app. Qed.

Lemma history_log (w : World) (lvl : Level) (msg : LogMsg) :
  history (emit (Log lvl msg) w) = history w.
Proof. unfold emit. rewrite history_extend. simpl. by rewrite app_nil_r. Qed.

(** A failure of the refinement step gives the candidate back. *)
Lemma refine_with_gpt_failure (text translation lang : pystr) (w : World) :
  has_openai env = true ->
  refinement_fails env text translation lang w ->
  exists evs,
    refine_with_gpt env text translation lang w = (Ok translation, extend w evs)
    /\ Forall (fun e => provider_of e = Some Refinement) evs.
Proof.
  unfold refine_with_gpt, refinement_fails, lang_info. intros -> Hfail. run.
  destruct (LANG_MAP !! lang) as [info|]; run.
  - rewrite history_log, Hfail. simpl. unfold emit; rewrite ?extend_extend; simpl.
    eexists; (split; [reflexivity|]); by repeat constructor.
  - unfold emit; rewrite ?extend_extend; simpl.
    eexists; (split; [reflexivity|]); by repeat constructor.
Qed.

End ProviderFacts.

(** ** States the outside cannot tell apart *)

Lemma world_equiv_refl (w : World) : world_equiv w w.
Proof. done. Qed.

Lemma world_equiv_trans (w1 w2 w3 : World) :
  world_equiv w1 w2 -> world_equiv w2 w3 -> world_equiv w1 w3.
Proof. intros [H1 H2] [H3 H4]. split; congruence. Qed.

Lemma world_equiv_extend (w1 w2 : World) (evs : list Event) :
  world_equiv w1 w2 -> world_equiv (extend w1 evs) (extend w2 evs).
Proof.
  intros [Hfs Hh]. split; [done|]. rewrite !history_extend. by rewrite Hh.
Qed.

Lemma world_equiv_log (w : World) (lvl : Level) (msg : LogMsg) :
  world_equiv (emit (Log lvl msg) w) w.
Proof. split; [done|]. apply history_log. Qed.

Create HintDb respects.

Lemma respects_ret {A} (a : A) : Respects (mret a).
Proof. by intros w1 w2 H. Qed.

Lemma respects_raise {A} (e : exn) : Respects (raise e : M World A).
Proof. by intros w1 w2 H. Qed.

Lemma respects_bind {A B} (m : M World A) (k : A -> M World B) :
  Respects m -> (forall a, Respects (k a)) -> Respects (m ≫= k).
Proof.
  intros Hm Hk w1 w2 H. unfold mbind, M_bind.
  destruct (Hm w1 w2 H) as [Hr Hw].
  destruct (m w1) as [r1 s1], (m w2) as [r2 s2]; simpl in *; subst.
  destruct r2; [by apply Hk|done].
Qed.

Lemma respects_try_except {A} (m : M World A) (h : exn -> M World A) :
  Respects m -> (forall e, Respects (h e)) -> Respects (try_except m h).
Proof.
  intros Hm Hh w1 w2 H. unfold try_except.
  destruct (Hm w1 w2 H) as [Hr Hw].
  destruct (m w1) as [r1 s1], (m w2) as [r2 s2]; simpl in *; subst.
  destruct r2; [done|by apply Hh].
Qed.

Lemma respects_log (lvl : Level) (msg : LogMsg) : Respects (log lvl msg).
Proof. intros w1 w2 H. split; [done|]. by apply world_equiv_extend. Qed.

Lemma respects_lang_info (lang : pystr) : Respects (lang_info lang).
Proof.
  unfold lang_info. destruct (LANG_MAP !! lang);
    [apply respects_ret|apply respects_raise].
Qed.

Section RespectsProviders.

Context (env : Env).

Lemma respects_requests_post_libre (server text lang : pystr) :
  Respects (requests_post_libre env server text lang).
Proof.
  intros w1 w2 H. unfold requests_post_libre. destruct H as [Hfs Hh].
  rewrite Hh. destruct (libre_post env _ _ _ _); simpl;
    (split; [done|]); by apply world_equiv_extend.
Qed.

Lemma respects_requests_post_deepl (key text code : pystr) :
  Respects (requests_post_deepl env key text code).
Proof.
  intros w1 w2 H. unfold requests_post_deepl. destruct H as [Hfs Hh].
  rewrite Hh. destruct (deepl_post env _ _ _ _); simpl;
    (split; [done|]); by apply world_equiv_extend.
Qed.

Lemma respects_openai_create (prompt : pystr) :
  Respects (openai_create env prompt).
Proof.
  intros w1 w2 H. unfold openai_create. destruct H as [Hfs Hh].
  rewrite Hh. destruct (gpt_content env _ _); simpl;
    (split; [done|]); by apply world_equiv_extend.
Qed.

#[local] Hint Resolve respects_ret respects_raise respects_log respects_lang_info
  respects_requests_post_libre respects_requests_post_deepl
  respects_openai_create : respects.

Ltac respects :=
  repeat first
    [ apply respects_bind; [|intros ?]
    | apply respects_try_except; [|intros ?]
    | solve [auto with respects]
    | match goal with
      | |- Respects (if ?b then _ else _) => destruct b
      | |- Respects (match ?o with Some _ => _ | None => _ end) => destruct o
      end ].

Lemma respects_translate_with_libre_from (servers : list pystr) (text lang : pystr) :
  Respects (translate_with_libre_from env servers text lang).
Proof.
  induction servers as [|server rest IH]; simpl; respects.
Qed.

Lemma respects_translate_with_libre (text lang : pystr) :
  Respects (translate_with_libre env text lang).
Proof. apply respects_translate_with_libre_from. Qed.

Lemma respects_translate_with_deepl (text code : pystr) :
  Respects (translate_with_deepl env text code).
Proof.
  unfold translate_with_deepl.
  destruct (DEEPL_API_KEY env) as [[|c key]|]; respects.
Qed.

Lemma respects_refine_with_gpt (text translation lang : pystr) :
  Respects (refine_with_gpt env text translation lang).
Proof. unfold refine_with_gpt. respects. Qed.

End RespectsProviders.

(** ** The resolver *)

Section Resolver.

Context (env : Env).

Ltac run := unfold mbind, M_bind, mret, M_ret, try_except, raise, log, lift,
  memory_get, memory_set; simpl.

(** On a miss [apply_translation] logs, computes its candidate and goes
    on from it. *)
Lemma apply_translation_miss
    (text target_lang : pystr) (memory : gmap pystr pystr) (w : World) :
  strip text <> [] ->
  memory !! strip text = None ->
  apply_translation env text target_lang (memory, w)
  = (candidate ← candidate_translation env (strip text) target_lang;
     if decide (candidate = strip text)
     then lift (log WARNING (MsgTranslationFailed (take 50 (strip text))));;
          memory_set (strip text) (strip text);;
          mret (strip text)
     else
       final ← lift (refine_with_gpt env (strip text) candidate target_lang);
       memory_set (strip text) final;;
       lift (log DEBUG (MsgTranslationResult (take 50 final)));;
       mret final)
      (memory, emit (Log INFO (MsgTranslating (take 50 (strip text)))) w).
Proof.
  intros Hne Hmiss. unfold apply_translation, candidate_translation.
  rewrite decide_False by done. run. rewrite Hmiss. simpl.
  destruct (translate_with_libre env (strip text) target_lang _) as [[libre|e] w1];
    simpl; [|done].
  by destruct (decide (libre = strip text)).
Qed.

(** The candidate is what the first two strategies of the specification
    give, in states the outside cannot tell apart. *)
Lemma candidate_translation_stages
    (original target_lang : pystr) (memory : gmap pystr pystr) (wa wb : World) :
  world_equiv wa wb ->
  exists r wc wd,
    candidate_translation env original target_lang (memory, wa) = (r, (memory, wc))
    /\ (first ← translate_with_libre env original target_lang;
        if decide (first = original)
        then deepl_attempt env original target_lang
        else mret first) wb = (r, wd)
    /\ world_equiv wc wd.
Proof.
  intros Hw. unfold candidate_translation. run.
  pose proof (respects_translate_with_libre env original target_lang _ _ Hw)
    as [Hr1 Hw1].
  destruct (translate_with_libre_spec env original target_lang wa)
    as (libre & evs1 & Ha & _).
  rewrite Ha in *. simpl in Hr1, Hw1.
  destruct (translate_with_libre env original target_lang wb) as [r1 wb'].
  simpl in Hr1, Hw1. subst r1. simpl.
  set (wa' := extend _ evs1) in *. clearbody wa'. clear Ha.
  destruct (decide (libre = original)) as [Hfail|Hok].
  - unfold deepl_attempt, lang_info. run.
    destruct (LANG_MAP !! target_lang) as [info|]; run.
    + pose proof (respects_translate_with_deepl env original (lang_deepl info)
                    (emit (Log DEBUG MsgLibreReturnedOriginal) wa') wb') as Hd.
      destruct Hd as [Hr2 Hw2].
      { eapply world_equiv_trans; [apply world_equiv_log|done]. }
      destruct (translate_with_deepl env original (lang_deepl info)
                  (emit (Log DEBUG MsgLibreReturnedOriginal) wa')) as [ra wc].
      destruct (translate_with_deepl env original (lang_deepl info) wb') as [rb wd].
      simpl in *. subst. by exists rb, wc, wd.
    + eexists _, _, _. split; [reflexivity|]. split; [reflexivity|].
      eapply world_equiv_trans; [apply world_equiv_log|done].
  - by exists (Ok libre), wa', wb'.
Qed.

(** C1. For every input, [apply_translation] does what the resolver of the
    specification does with the three providers of the source: the same
    result, the same memory, the same files and the same requests (the log
    records, which the specification does not describe, set aside).  And a
    text that is empty once trimmed is returned as it is, with the memory and
    the outside untouched: no memory entry, no provider call. *)
Theorem apply_translation_refines_resolve
    (text target_lang : pystr) (memory : gmap pystr pystr) (w : World) :
  observe (apply_translation env text target_lang (memory, w))
  = observe (resolve (translate_with_libre env) (deepl_attempt env)
               (refine_with_gpt env) text target_lang (memory, w))
  /\ (strip text = [] ->
      apply_translation env text target_lang (memory, w)
      = (Ok (strip text), (memory, w))).
Proof.
  split.
  2: { intros Hempty. unfold apply_translation. by rewrite decide_True. }
  destruct (decide (strip text = [])) as [Hempty|Hne].
  { unfold apply_translation, resolve. by rewrite !decide_True. }
  destruct (memory !! strip text) as [stored|] eqn:Hhit.
  { unfold apply_translation, resolve. rewrite !decide_False by done.
    run. rewrite Hhit. simpl. unfold observe; simpl. by rewrite history_log. }
  rewrite apply_translation_miss by done.
  unfold resolve, provider_chain. rewrite decide_False by done.
  set (original := strip text) in *.
  destruct (candidate_translation_stages original target_lang memory _ _
              (world_equiv_log w INFO (MsgTranslating (take 50 original))))
    as (r & wc & wd & Hcode & Hspec & Hw2).
  revert Hspec. run. rewrite Hhit, Hcode. simpl.
  destruct (translate_with_libre env original target_lang w) as [[first|e1] w1];
    simpl.
  2: { intros [= <- <-]. unfold observe; simpl. by destruct Hw2 as [-> ->]. }
  intros ->. destruct r as [candidate|e]; simpl.
  2: { unfold observe; simpl. by destruct Hw2 as [-> ->]. }
  destruct (decide (candidate = original)) as [Hsame|Hdiff]; simpl.
  { rewrite decide_True by done. unfold observe; simpl.
    rewrite history_log. by destruct Hw2 as [-> ->]. }
  pose proof (respects_refine_with_gpt env original candidate target_lang
                wc wd Hw2) as [Hr3 Hw3].
  destruct (refine_with_gpt_spec env original candidate target_lang wc)
    as (final & evs3 & Hc & _).
  rewrite Hc in *. set (we := extend wc evs3) in *. clearbody we.
  simpl in Hr3, Hw3.
  destruct (refine_with_gpt env original candidate target_lang wd) as [r3 wf].
  simpl in Hr3, Hw3. subst r3. simpl.
  unfold observe. destruct (decide (final = original)) as [->|Hfinal]; simpl;
    rewrite history_log; by destruct Hw3 as [-> ->].
Qed.

Lemma chain_runs_app (t lang : pystr) (a b : list Event) :
  chain_runs t lang (a ++ b) = (chain_runs t lang a + chain_runs t lang b)%nat.
Proof. apply occ_app. Qed.

Lemma chain_runs_other (t lang : pystr) (evs : list Event) :
  Forall (fun e => provider_of e <> Some Bulk) evs -> chain_runs t lang evs = 0%nat.
Proof.
  intros H. apply occ_none. eapply Forall_impl; [exact H|].
  intros e He ->. by apply He.
Qed.

Lemma chain_runs_paid (t lang : pystr) (evs : list Event) :
  Forall (fun e => provider_of e = Some Paid) evs -> chain_runs t lang evs = 0%nat.
Proof.
  intros H. apply chain_runs_other. eapply Forall_impl; [exact H|].
  by intros e ->.
Qed.

Lemma chain_runs_refinement (t lang : pystr) (evs : list Event) :
  Forall (fun e => provider_of e = Some Refinement) evs ->
  chain_runs t lang evs = 0%nat.
Proof.
  intros H. apply chain_runs_other. eapply Forall_impl; [exact H|].
  by intros e ->.
Qed.

Lemma chain_runs_log (t lang : pystr) (lvl : Level) (msg : LogMsg) (evs : list Event) :
  chain_runs t lang (Log lvl msg :: evs) = chain_runs t lang evs.
Proof. unfold chain_runs. rewrite occ_cons. by rewrite decide_False. Qed.

(** What a miss does: unless the language is unknown and the bulk provider
    failed ([KeyError]), it returns a value and records it under the trimmed
    text; and it starts the provider chain once, for that text. *)
Lemma apply_translation_miss_spec
    (text target_lang : pystr) (memory : gmap pystr pystr) (w : World) :
  strip text <> [] ->
  memory !! strip text = None ->
  exists evs,
    ((apply_translation env text target_lang (memory, w)
      = (Raise KeyError, (memory, extend w evs))
      /\ LANG_MAP !! target_lang = None)
     \/ exists final,
          apply_translation env text target_lang (memory, w)
          = (Ok final, (<[strip text := final]> memory, extend w evs)))
    /\ forall t,
         (chain_runs t target_lang evs <= 1)%nat
         /\ (strip text <> t -> chain_runs t target_lang evs = 0%nat).
Proof.
  intros Hne Hmiss. rewrite apply_translation_miss by done.
  set (original := strip text) in *. unfold candidate_translation. run.
  destruct (translate_with_libre_spec env original target_lang
              (emit (Log INFO (MsgTranslating (take 50 original))) w))
    as (libre & evs1 & -> & _ & Hruns). simpl.
  unfold emit. rewrite ?extend_extend. simpl.
  assert (Hcount : forall tail t,
    chain_runs t target_lang tail = 0%nat ->
    (chain_runs t target_lang
       (Log INFO (MsgTranslating (take 50 original)) :: evs1 ++ tail) <= 1)%nat
    /\ (original <> t ->
        chain_runs t target_lang
          (Log INFO (MsgTranslating (take 50 original)) :: evs1 ++ tail) = 0%nat)).
  { intros tail t Htail. rewrite chain_runs_log, chain_runs_app, Htail.
    destruct (Hruns t) as [H1 H2]. split; [lia|]. intros Ht. rewrite H2; done. }
  destruct (decide (libre = original)) as [Hfail|Hok]; run.
  - unfold lang_info. destruct (LANG_MAP !! target_lang) as [info|] eqn:Hlang; run.
    + unfold emit. rewrite ?extend_extend. simpl.
      destruct (translate_with_deepl_spec env original (lang_deepl info)
        (extend w (Log INFO (MsgTranslating (take 50 original))
                     :: evs1 ++ [Log DEBUG MsgLibreReturnedOriginal])))
        as (deepl & evs2 & -> & Hpaid). simpl.
      rewrite ?extend_extend. simpl.
      destruct (decide (deepl = original)) as [Hsame|Hdiff]; run.
      * unfold emit. rewrite ?extend_extend. simpl.
        eexists. split; [right; eexists; reflexivity|].
        intros t. rewrite <- ?app_assoc. apply Hcount.
        simpl. rewrite chain_runs_log, chain_runs_app, chain_runs_log.
        by rewrite (chain_runs_paid _ _ _ Hpaid).
      * destruct (refine_with_gpt_spec env original deepl target_lang
          (extend w (Log INFO (MsgTranslating (take 50 original))
               :: (evs1 ++ [Log DEBUG MsgLibreReturnedOriginal]) ++ evs2)))
          as (final & evs3 & -> & Href). simpl.
        unfold emit. rewrite ?extend_extend. simpl.
        eexists. split; [right; eexists; reflexivity|].
        intros t. rewrite <- ?app_assoc. apply Hcount.
        simpl. rewrite chain_runs_log, !chain_runs_app, chain_runs_log.
        by rewrite (chain_runs_paid _ _ _ Hpaid), (chain_runs_refinement _ _ _ Href).
    + unfold emit. rewrite ?extend_extend. simpl.
      eexists. split; [left; split; [reflexivity|done]|].
      intros t. apply Hcount. by rewrite chain_runs_log.
  - destruct (decide (libre = original)) as [|_]; [done|]. run.
    destruct (refine_with_gpt_spec env original libre target_lang
      (extend w (Log INFO (MsgTranslating (take 50 original)) :: evs1)))
      as (final & evs3 & -> & Href). simpl.
    unfold emit. rewrite ?extend_extend. simpl.
    eexists. split; [right; eexists; reflexivity|].
    intros t. rewrite <- ?app_assoc. apply Hcount.
    rewrite chain_runs_app, chain_runs_log.
    by rewrite (chain_runs_refinement _ _ _ Href).
Qed.

(** A hit returns the stored value; the memory is untouched and the only
    event is a log record of the resolver. *)
Lemma apply_translation_hit
    (text target_lang stored : pystr) (memory : gmap pystr pystr) (w : World) :
  strip text <> [] ->
  memory !! strip text = Some stored ->
  apply_translation env text target_lang (memory, w)
  = (Ok stored,
     (memory,
      extend w [Log DEBUG (MsgFoundInMemory (take 30 (strip text)) (take 30 stored))])).
Proof.
  intros Hne Hhit. unfold apply_translation. rewrite decide_False by done.
  run. by rewrite Hhit.
Qed.

(** One call of the resolver for a supported language: it returns; the
    memory only grows; a non-empty trimmed text is in the memory afterwards,
    mapped to the value returned; and the call runs the provider chain for
    [t] at most once, and only if [t] was not in the memory and is in it
    afterwards. *)
Lemma apply_translation_step
    (text target_lang : pystr) (info : LangInfo)
    (memory : gmap pystr pystr) (w : World) :
  LANG_MAP !! target_lang = Some info ->
  exists out memory' evs,
    apply_translation env text target_lang (memory, w)
    = (Ok out, (memory', extend w evs))
    /\ memory ⊆ memory'
    /\ (if decide (strip text = []) then out = []
        else memory' !! strip text = Some out)
    /\ forall t,
         chain_runs t target_lang evs = 0%nat
         \/ (chain_runs t target_lang evs = 1%nat
             /\ memory !! t = None /\ is_Some (memory' !! t)).
Proof.
  intros Hlang. destruct (decide (strip text = [])) as [Hempty|Hne].
  { exists [], memory, []. rewrite extend_nil. unfold apply_translation.
    rewrite decide_True by done. rewrite Hempty. split; [done|].
    split; [done|]. split; [done|]. by left. }
  destruct (memory !! strip text) as [stored|] eqn:Hhit.
  { exists stored, memory. eexists. rewrite (apply_translation_hit _ _ stored) by done.
    split; [done|]. split; [done|]. split; [done|]. intros t. left.
    by rewrite chain_runs_log. }
  destruct (apply_translation_miss_spec text target_lang memory w Hne Hhit)
    as (evs & [[_ Hnone]|[final Hrun]] & Hruns); [congruence|].
  exists final, (<[strip text := final]> memory), evs. split; [done|].
  split; [by apply insert_subseteq|]. split; [by rewrite lookup_insert_eq|].
  intros t. destruct (Hruns t) as [H1 H2].
  destruct (decide (strip text = t)) as [<-|Hother]; [|left; by apply H2].
  destruct (chain_runs (strip text) target_lang evs) as [|[|n]]; [by left| |lia].
  right. split; [done|]. split; [done|]. by rewrite lookup_insert_eq.
Qed.

(** A sequence of calls on the same memory. *)
Lemma resolve_all_spec
    (texts : list pystr) (target_lang : pystr) (info : LangInfo)
    (memory : gmap pystr pystr) (w : World) :
  LANG_MAP !! target_lang = Some info ->
  exists outs memory' evs,
    resolve_all env texts target_lang (memory, w)
    = (Ok outs, (memory', extend w evs))
    /\ memory ⊆ memory'
    /\ length outs = length texts
    /\ (forall i text, texts !! i = Some text ->
          exists out, outs !! i = Some out
            /\ if decide (strip text = []) then out = []
               else memory' !! strip text = Some out)
    /\ forall t,
         (chain_runs t target_lang evs <= 1)%nat
         /\ (is_Some (memory !! t) -> chain_runs t target_lang evs = 0%nat).
Proof.
  intros Hlang. revert memory w.
  induction texts as [|text rest IH]; intros memory w.
  { exists [], memory, []. rewrite extend_nil. split; [done|]. split; [done|].
    split; [done|]. split; [intros i text Hi; by rewrite lookup_nil in Hi|].
    intros t. split; [|done]. unfold chain_runs. rewrite occ_nil. lia. }
  destruct (apply_translation_step text target_lang info memory w Hlang)
    as (out & memory1 & evs1 & Hrun1 & Hsub1 & Hout1 & Hruns1).
  destruct (IH memory1 (extend w evs1))
    as (outs & memory2 & evs2 & Hrun2 & Hsub2 & Hlen2 & Houts2 & Hruns2).
  exists (out :: outs), memory2, (evs1 ++ evs2).
  unfold resolve_all in *. simpl. run. rewrite Hrun1. simpl.
  rewrite Hrun2. simpl. rewrite extend_extend. split; [done|].
  split; [by etrans|]. split; [by rewrite Hlen2|]. split.
  - intros [|i] text' Hi; simpl in Hi.
    + injection Hi as <-. exists out. split; [done|].
      destruct (decide (strip text = [])); [done|].
      by eapply lookup_weaken.
    + by apply Houts2.
  - intros t. rewrite chain_runs_app.
    destruct (Hruns2 t) as [H2 H2'].
    destruct (Hruns1 t) as [->|(-> & Hnone & Hsome)].
    + split; [lia|]. intros [v Hv]. rewrite H2'; [done|].
      exists v. by eapply lookup_weaken.
    + rewrite H2' by done. split; [lia|]. intros [v Hv]. congruence.
Qed.

(** C2. For a supported target language: a non-empty trimmed text that is a
    key of the memory is answered with the stored value, the memory is left
    as it is and the only event is a log record of the resolver, so no
    provider is invoked.  And a sequence of calls on the same memory returns,
    runs the provider chain at most once for each string (never for a
    string the memory already had), and answers calls whose trimmed texts
    are equal with the same value. *)
Theorem resolver_memoizes
    (texts : list pystr) (target_lang : pystr) (info : LangInfo)
    (memory : gmap pystr pystr) (w : World) :
  LANG_MAP !! target_lang = Some info ->
  (forall text stored,
     strip text <> [] ->
     memory !! strip text = Some stored ->
     exists e,
       apply_translation env text target_lang (memory, w)
       = (Ok stored, (memory, extend w [e]))
       /\ provider_of e = None /\ is_request e = false)
  /\ exists outs memory' evs,
       resolve_all env texts target_lang (memory, w)
       = (Ok outs, (memory', extend w evs))
       /\ length outs = length texts
       /\ (forall t,
             (chain_runs t target_lang evs <= 1)%nat
             /\ (is_Some (memory !! t) -> chain_runs t target_lang evs = 0%nat))
       /\ (forall i j a b,
             texts !! i = Some a -> texts !! j = Some b ->
             strip a = strip b -> outs !! i = outs !! j).
Proof.
  intros Hlang. split.
  { intros text stored Hne Hhit. eexists.
    rewrite (apply_translation_hit _ _ stored) by done. done. }
  destruct (resolve_all_spec texts target_lang info memory w Hlang)
    as (outs & memory' & evs & Hrun & Hsub & Hlen & Houts & Hruns).
  exists outs, memory', evs. split; [done|]. split; [done|]. split; [done|].
  intros i j a b Hi Hj Hab.
  destruct (Houts i a Hi) as (oi & -> & Hoi).
  destruct (Houts j b Hj) as (oj & -> & Hoj).
  rewrite Hab in Hoi. destruct (decide (strip b = [])); congruence.
Qed.

(** C10. Every call of [apply_translation], whatever it returns or raises,
    leaves every entry of the memory in place with its value, and either
    leaves the memory as it was or adds one entry, whose key is the trimmed
    text, which is then non-empty and was not a key before. *)
Theorem apply_translation_memory_frame
    (text target_lang : pystr) (memory : gmap pystr pystr) (w : World) :
  let memory' := fst (snd (apply_translation env text target_lang (memory, w))) in
  (forall k v, memory !! k = Some v -> memory' !! k = Some v)
  /\ (memory' = memory
      \/ (strip text <> [] /\ memory !! strip text = None
          /\ exists v, memory' = <[strip text := v]> memory)).
Proof.
  destruct (decide (strip text = [])) as [Hempty|Hne].
  { unfold apply_translation. rewrite decide_True by done. simpl. split; [done|by left]. }
  destruct (memory !! strip text) as [stored|] eqn:Hhit.
  { rewrite (apply_translation_hit _ _ stored) by done. simpl. split; [done|by left]. }
  destruct (apply_translation_miss_spec text target_lang memory w Hne Hhit)
    as (evs & [[-> _]|[final ->]] & _); simpl.
  - split; [done|by left].
  - split.
    + intros k v Hk. rewrite lookup_insert_ne; [done|]. intros <-. congruence.
    + right. split; [done|]. split; [done|]. by exists final.
Qed.

(** A bulk provider that returns its input, a paid provider that returns
    its language argument, a colon and its input, and no refinement. *)
Lemma resolve_with_paid_fallback
    (text target_lang : pystr) (info : LangInfo)
    (memory : gmap pystr pystr) (w : World) :
  strip text <> [] ->
  memory !! strip text = None ->
  LANG_MAP !! target_lang = Some info ->
  (forall t l w0, fst (translate_with_libre env t l w0) = Ok t) ->
  (forall t c w0, fst (translate_with_deepl env t c w0) = Ok (c ++ str ":" ++ t)) ->
  has_openai env = false ->
  exists w',
    apply_translation env text target_lang (memory, w)
    = (Ok (lang_deepl info ++ str ":" ++ strip text),
       (<[strip text := lang_deepl info ++ str ":" ++ strip text]> memory, w')).
Proof.
  intros Hne Hmiss Hlang Hbulk Hpaid Hgpt.
  rewrite apply_translation_miss by done.
  set (original := strip text) in *.
  assert (Hdiff : lang_deepl info ++ str ":" ++ original <> original).
  { intros H. apply (f_equal length) in H. rewrite !length_app in H.
    simpl in H. lia. }
  unfold candidate_translation, lang_info. run.
  pose proof (Hbulk original target_lang
    (emit (Log INFO (MsgTranslating (take 50 original))) w)) as H1.
  destruct (translate_with_libre env original target_lang _) as [r1 w1].
  simpl in H1. subst r1. simpl. rewrite decide_True by done. run.
  rewrite Hlang. run.
  pose proof (Hpaid original (lang_deepl info)
    (emit (Log DEBUG MsgLibreReturnedOriginal) w1)) as H2.
  destruct (translate_with_deepl env original (lang_deepl info) _) as [r2 w2].
  simpl in H2. subst r2. simpl. rewrite decide_False by done. run.
  rewrite refine_with_gpt_unavailable by done. simpl.
  eexists. reflexivity.
Qed.

(** C3 (as amended). The paid provider is invoked only when the bulk provider
    failed: on a miss where the bulk provider returns a text other than the
    trimmed original, no event of the call comes from the paid provider.
    Without its credential the paid provider passes its input through and
    makes no request.  And with a bulk provider that always returns its
    input and a paid provider that returns its language argument, a colon
    and its input, and no refinement, resolving [Hello] for [es] yields
    [ES:Hello], the paid provider being called with the DeepL code of
    [LANG_MAP], and the memory maps [Hello] to [ES:Hello]. *)
Theorem paid_provider_is_a_fallback
    (text target_lang : pystr) (memory : gmap pystr pystr) (w : World) :
  (strip text <> [] ->
   memory !! strip text = None ->
   forall libre w1,
     translate_with_libre env (strip text) target_lang
       (emit (Log INFO (MsgTranslating (take 50 (strip text)))) w) = (Ok libre, w1) ->
     libre <> strip text ->
     Forall (fun e => provider_of e <> Some Paid)
       (events_since (length (trace w))
          (snd (snd (apply_translation env text target_lang (memory, w))))))
  /\ (truthy (DEEPL_API_KEY env) = false ->
      forall code,
        translate_with_deepl env text code w
        = (Ok text, extend w [Log DEBUG MsgNoDeeplKey]))
  /\ ((forall t l w0, fst (translate_with_libre env t l w0) = Ok t) ->
      (forall t c w0, fst (translate_with_deepl env t c w0) = Ok (c ++ str ":" ++ t)) ->
      has_openai env = false ->
      exists w',
        apply_translation env (str "Hello") (str "es") (∅, w)
        = (Ok (str "ES:Hello"), ({[ str "Hello" := str "ES:Hello" ]}, w'))).
Proof.
  split; [|split].
  - intros Hne Hmiss libre w1 Hlibre Hok.
    rewrite apply_translation_miss by done. unfold candidate_translation. run.
    destruct (translate_with_libre_spec env (strip text) target_lang
                (emit (Log INFO (MsgTranslating (take 50 (strip text)))) w))
      as (r & evs1 & Hrun & Hbulk & _).
    rewrite Hrun in Hlibre. injection Hlibre as -> <-. rewrite Hrun. simpl.
    rewrite decide_False by done. run. rewrite decide_False by done. run.
    unfold emit. rewrite ?extend_extend.
    destruct (refine_with_gpt_spec env (strip text) libre target_lang
                (extend w ([Log INFO (MsgTranslating (take 50 (strip text)))] ++ evs1)))
      as (final & evs3 & -> & Href). simpl.
    unfold emit. rewrite ?extend_extend, events_since_extend.
    assert (Hbulk' : Forall (fun e => provider_of e <> Some Paid) evs1).
    { eapply Forall_impl; [exact Hbulk|]. by intros e ->. }
    assert (Href' : Forall (fun e => provider_of e <> Some Paid) evs3).
    { eapply Forall_impl; [exact Href|]. by intros e ->. }
    simpl. repeat first [rewrite Forall_cons | rewrite Forall_app].
    simpl. repeat split; done.
  - intros Hkey code. by apply translate_with_deepl_no_key.
  - intros Hbulk Hpaid Hgpt.
    destruct (resolve_with_paid_fallback (str "Hello") (str "es")
                (mkLang (str "Spanish") (str "ES")) ∅ w) as [w' Hw'];
      try done; try (by vm_compute).
    exists w'. rewrite Hw'. reflexivity.
Qed.

(** C4. On a miss, with [candidate] the result of the first two stages:
    when the candidate is the original text the refinement pass is not
    invoked (the call ends with one log record of the resolver and the
    identity mapping); when the candidate differs and the refinement
    credential is unavailable the candidate is returned and recorded as it
    is; and when the candidate differs and the refinement step fails, the
    candidate, which is not the original text, is returned and recorded. *)
Theorem refinement_pass_falls_back
    (text target_lang candidate : pystr) (memory : gmap pystr pystr) (w w1 : World) :
  strip text <> [] ->
  memory !! strip text = None ->
  candidate_translation env (strip text) target_lang
    (memory, emit (Log INFO (MsgTranslating (take 50 (strip text)))) w)
  = (Ok candidate, (memory, w1)) ->
  (candidate = strip text ->
   apply_translation env text target_lang (memory, w)
   = (Ok (strip text),
      (<[strip text := strip text]> memory,
       extend w1 [Log WARNING (MsgTranslationFailed (take 50 (strip text)))])))
  /\ (candidate <> strip text -> has_openai env = false ->
      apply_translation env text target_lang (memory, w)
      = (Ok candidate,
         (<[strip text := candidate]> memory,
          extend w1 [Log DEBUG MsgOpenAIUnavailable;
                     Log DEBUG (MsgTranslationResult (take 50 candidate))])))
  /\ (candidate <> strip text -> has_openai env = true ->
      refinement_fails env (strip text) candidate target_lang w1 ->
      exists w',
        apply_translation env text target_lang (memory, w)
        = (Ok candidate, (<[strip text := candidate]> memory, w'))).
Proof.
  intros Hne Hmiss Hcand. rewrite apply_translation_miss by done.
  run. rewrite Hcand. simpl. split; [|split].
  - intros Hsame. by rewrite decide_True.
  - intros Hdiff Hgpt. rewrite decide_False by done.
    rewrite refine_with_gpt_unavailable by done. simpl.
    unfold emit. by rewrite extend_extend.
  - intros Hdiff Hgpt Hfail. rewrite decide_False by done.
    unfold refine_with_gpt. rewrite Hgpt. simpl.
    unfold refinement_fails in Hfail. unfold lang_info. run.
    destruct (LANG_MAP !! target_lang) as [info|]; run.
    + unfold openai_create. rewrite history_log, Hfail. simpl.
      eexists. reflexivity.
    + eexists. reflexivity.
Qed.

End Resolver.

(** ** Computations only add to the trace *)

Lemma grows_ret {S A} (tr : S -> list Event) (a : A) : Grows tr (mret a).
Proof. by intros s. Qed.

Lemma grows_raise {S A} (tr : S -> list Event) (e : exn) :
  Grows tr (raise e : M S A).
Proof. by intros s. Qed.

Lemma grows_bind {S A B} (tr : S -> list Event) (m : M S A) (k : A -> M S B) :
  Grows tr m -> (forall a, Grows tr (k a)) -> Grows tr (m ≫= k).
Proof.
  intros Hm Hk s. unfold mbind, M_bind. specialize (Hm s).
  destruct (m s) as [[a|e] s1]; simpl in *; [|done].
  etrans; [exact Hm|]. apply Hk.
Qed.

Lemma grows_try_except {S A} (tr : S -> list Event) (m : M S A) (h : exn -> M S A) :
  Grows tr m -> (forall e, Grows tr (h e)) -> Grows tr (try_except m h).
Proof.
  intros Hm Hh s. unfold try_except. specialize (Hm s).
  destruct (m s) as [[a|e] s1]; simpl in *; [done|].
  etrans; [exact Hm|]. apply Hh.
Qed.

Lemma grows_lift {A} (m : M World A) : Grows trace m -> Grows mem_trace (lift m).
Proof.
  intros Hm [memory w]. unfold lift, mem_trace. simpl. specialize (Hm w).
  by destruct (m w).
Qed.

Lemma grows_with_memory {A : Type} (memory : gmap pystr pystr) (m : M MemState A) :
  Grows mem_trace m -> Grows trace (with_memory memory m).
Proof.
  intros Hm w. unfold with_memory. specialize (Hm (memory, w)).
  unfold mem_trace in Hm. simpl in Hm.
  by destruct (m (memory, w)) as [[a|e] [memory' w']].
Qed.

Lemma grows_for_each {S A B} (tr : S -> list Event) (body : A -> M S B) (l : list A) :
  (forall x, Grows tr (body x)) -> Grows tr (for_each body l).
Proof.
  intros Hbody. induction l as [|x l IH]; simpl; [apply grows_ret|].
  apply grows_bind; [done|]. intros y.
  apply grows_bind; [done|]. intros ys. apply grows_ret.
Qed.

Lemma grows_extend {A} (m : M World A) :
  (forall w, exists evs, snd (m w) = extend w evs) -> Grows trace m.
Proof. intros H w. destruct (H w) as [evs ->]. by apply prefix_app_r. Qed.

Lemma grows_log (lvl : Level) (msg : LogMsg) : Grows trace (log lvl msg).
Proof. apply grows_extend. intros w. by eexists. Qed.

Lemma grows_os_path_exists (path : pystr) : Grows trace (os_path_exists path).
Proof. apply grows_extend. intros w. by eexists. Qed.

Lemma grows_open_read (path : pystr) : Grows trace (open_read path).
Proof.
  apply grows_extend. intros w. unfold open_read.
  destruct (fs w !! path) as [[data|]|]; by eexists.
Qed.

Lemma grows_f_read {S} (tr : S -> list Event) (data : list byte) :
  Grows tr (f_read data).
Proof.
  unfold f_read. destruct (utf8_decode data); [apply grows_ret|apply grows_raise].
Qed.

Lemma grows_open_write (path : pystr) : Grows trace (open_write path).
Proof.
  intros w. unfold open_write. destruct (fs w !! path) as [[data|]|]; simpl;
    by apply prefix_app_r.
Qed.

Lemma grows_f_write (path text : pystr) : Grows trace (f_write path text).
Proof.
  intros w. unfold f_write.
  destruct (utf8_encode text), (fs w !! path) as [[data|]|]; by simpl.
Qed.

Lemma grows_memory_get (k : pystr) : Grows mem_trace (memory_get k).
Proof. by intros s. Qed.

Lemma grows_memory_set (k v : pystr) : Grows mem_trace (memory_set k v).
Proof. by intros s. Qed.

Lemma grows_lang_info {S} (tr : S -> list Event) (lang : pystr) :
  Grows tr (lang_info lang).
Proof.
  unfold lang_info. destruct (LANG_MAP !! lang); [apply grows_ret|apply grows_raise].
Qed.

Create HintDb grows.

#[local] Hint Resolve grows_ret grows_raise grows_log grows_os_path_exists
  grows_open_read grows_f_read grows_open_write grows_f_write grows_memory_get
  grows_memory_set grows_lang_info : grows.

Ltac grows :=
  repeat first
    [ solve [auto with grows]
    | apply grows_bind; [|intros ?]
    | apply grows_try_except; [|intros ?]
    | apply grows_lift
    | apply grows_for_each; intros ?
    | apply grows_with_memory
    | progress cbv zeta
    | match goal with
      | |- Grows _ (if ?b then _ else _) => destruct b
      | |- Grows _ (match ?o with Some _ => _ | None => _ end) => destruct o
      | |- Grows _ (match ?o with Ok _ => _ | Raise _ => _ end) => destruct o
      | |- Grows _ (match ?e with JSONDecodeError => _ | _ => _ end) => destruct e
      | |- Grows _ (match ?l with [] => _ | _ :: _ => _ end) => destruct l
      | |- Grows _ (let '(_, _) := ?p in _) => destruct p
      end ].

Section Growth.

Context (env : Env).

Lemma grows_translate_with_libre (text lang : pystr) :
  Grows trace (translate_with_libre env text lang).
Proof.
  apply grows_extend. intros w.
  destruct (translate_with_libre_spec env text lang w) as (r & evs & -> & _).
  by eexists.
Qed.

Lemma grows_translate_with_deepl (text code : pystr) :
  Grows trace (translate_with_deepl env text code).
Proof.
  apply grows_extend. intros w.
  destruct (translate_with_deepl_spec env text code w) as (r & evs & -> & _).
  by eexists.
Qed.

Lemma grows_refine_with_gpt (text translation lang : pystr) :
  Grows trace (refine_with_gpt env text translation lang).
Proof.
  apply grows_extend. intros w.
  destruct (refine_with_gpt_spec env text translation lang w) as (r & evs & -> & _).
  by eexists.
Qed.

#[local] Hint Resolve grows_translate_with_libre grows_translate_with_deepl
  grows_refine_with_gpt : grows.

Lemma grows_apply_translation (text lang : pystr) :
  Grows mem_trace (apply_translation env text lang).
Proof. unfold apply_translation. grows. Qed.

#[local] Hint Resolve grows_apply_translation : grows.

Lemma grows_load_memory : Grows trace (load_memory env).
Proof. unfold load_memory. grows. Qed.

Lemma grows_save_memory (memory : gmap pystr pystr) :
  Grows trace (save_memory env memory).
Proof. unfold save_memory. grows. Qed.

Lemma grows_walk (file lang : pystr) (soup : Soup) :
  Grows mem_trace (walk env file lang soup).
Proof.
  unfold walk, inject_code, append_all, process_tag, process_string,
    translate_attr, localize_link. grows.
Qed.

End Growth.

(** ** The memory store *)

Section MemoryStore.

Context (env : Env).

Ltac run := unfold mbind, M_bind, mret, M_ret, try_except, raise, log,
  os_path_exists, open_read, f_read; simpl.

(** A missing memory file gives an empty memory. *)
Lemma load_memory_missing (w : World) :
  fs w !! TRANSLATION_MEMORY = None ->
  load_memory env w = (Ok ∅, extend w [FsExists TRANSLATION_MEMORY]).
Proof.
  intros Hmissing. unfold load_memory. run. rewrite Hmissing.
  rewrite bool_decide_eq_false_2; [done|]. by intros [x Hx].
Qed.

(** A memory file whose text is not JSON gives an empty memory and an error
    in the log. *)
Lemma load_memory_malformed_json (w : World) (data : list byte) (text : pystr) :
  fs w !! TRANSLATION_MEMORY = Some (File data) ->
  utf8_decode data = Some text ->
  json_loads env (universal_newlines text) = None ->
  load_memory env w
  = (Ok ∅, extend w [FsExists TRANSLATION_MEMORY; FsOpenRead TRANSLATION_MEMORY;
                     Log ERROR MsgErrorParsingMemory]).
Proof.
  intros Hfile Hdecode Hjson. unfold load_memory. run. rewrite Hfile.
  rewrite bool_decide_eq_true_2 by done. simpl. rewrite Hfile. simpl.
  rewrite Hdecode. run. rewrite Hjson. simpl.
  unfold emit. by rewrite !extend_extend.
Qed.

(** A well-formed memory file gives the memory it holds. *)
Lemma load_memory_well_formed (w : World) (data : list byte) (text : pystr)
    (memory : gmap pystr pystr) :
  fs w !! TRANSLATION_MEMORY = Some (File data) ->
  utf8_decode data = Some text ->
  json_loads env (universal_newlines text) = Some memory ->
  load_memory env w
  = (Ok memory, extend w [FsExists TRANSLATION_MEMORY; FsOpenRead TRANSLATION_MEMORY]).
Proof.
  intros Hfile Hdecode Hjson. unfold load_memory. run. rewrite Hfile.
  rewrite bool_decide_eq_true_2 by done. simpl. rewrite Hfile. simpl.
  rewrite Hdecode. run. rewrite Hjson. simpl.
  unfold emit. by rewrite !extend_extend.
Qed.

(** C5 (the code fails the claim). On a memory file that a cut write left
    with half a character, which is not UTF-8, [load_memory] raises
    [UnicodeDecodeError], whatever the JSON library would do: the [except]
    clause names [json.JSONDecodeError] alone, so nothing is logged and no
    empty memory is returned. *)
Theorem load_memory_raises_on_truncated_file :
  utf8_decode truncated_memory_file = None
  /\ load_memory env world_truncated_memory
     = (Raise UnicodeDecodeError,
        extend world_truncated_memory
          [FsExists TRANSLATION_MEMORY; FsOpenRead TRANSLATION_MEMORY]).
Proof.
  split; [by vm_compute|]. unfold load_memory. run.
  replace (world_truncated_memory.(fs) !! TRANSLATION_MEMORY)
    with (Some (File truncated_memory_file)) by (by vm_compute).
  rewrite bool_decide_eq_true_2 by done. simpl.
  replace (world_truncated_memory.(fs) !! TRANSLATION_MEMORY)
    with (Some (File truncated_memory_file)) by (by vm_compute).
  simpl. replace (utf8_decode truncated_memory_file) with (@None pystr)
    by (by vm_compute).
  run. unfold emit. by rewrite !extend_extend.
Qed.

(** [save_memory] never raises, and its events are the opening of the memory
    file and, when the write fails, an error in the log. *)
Lemma save_memory_spec (memory : gmap pystr pystr) (w : World) :
  exists w',
    save_memory env memory w = (Ok tt, w')
    /\ (trace w' = trace w ++ [FsOpenWrite TRANSLATION_MEMORY]
        \/ exists e, trace w' = trace w ++ [FsOpenWrite TRANSLATION_MEMORY;
                                           Log ERROR (MsgFailedToSaveMemory e)]).
Proof.
  assert (Hwrites : forall chunks w0,
    trace (snd (for_each (f_write TRANSLATION_MEMORY) chunks w0)) = trace w0).
  { induction chunks as [|chunk chunks IH]; intros w0; [done|]. simpl.
    unfold mbind, M_bind, mret, M_ret.
    assert (Hchunk : trace (snd (f_write TRANSLATION_MEMORY chunk w0)) = trace w0).
    { unfold f_write.
      by destruct (utf8_encode chunk), (fs w0 !! TRANSLATION_MEMORY) as [[d|]|]. }
    destruct (f_write TRANSLATION_MEMORY chunk w0) as [[[]|e] w1]; simpl in *;
      [|done].
    specialize (IH w1).
    destruct (for_each (f_write TRANSLATION_MEMORY) chunks w1) as [[ys|e] w2];
      simpl in *; congruence. }
  unfold save_memory, try_except, mbind, M_bind, mret, M_ret, open_write, log.
  destruct (fs w !! TRANSLATION_MEMORY) as [[d|]|]; simpl.
  all: try match goal with
       | |- context [for_each ?f ?l ?w0] =>
           pose proof (Hwrites l w0) as Hw;
           destruct (for_each f l w0) as [[ys|e] w1]; simpl in *;
           eexists; (split; [reflexivity|]); simpl; rewrite ?Hw;
           [by left|right; exists e; by rewrite <- app_assoc]
       end.
  eexists. split; [reflexivity|]. right. exists OSError. simpl.
  by rewrite <- app_assoc.
Qed.

End MemoryStore.

(** ** The output path *)

(** C7 (the code fails the claim). For the page [./notes.html.old.html] and
    the language [fr] the output path is [./notes-fr.html.old-fr.html]:
    [str.replace] rewrites every [.html] of the path, not the trailing one
    alone, which would give [./notes.html.old-fr.html]. *)
Theorem output_path_rewrites_every_dot_html :
  output_path_of (str "./notes.html.old.html") (str "fr")
  = str "./notes-fr.html.old-fr.html"
  /\ output_path_of (str "./notes.html.old.html") (str "fr")
     <> str "./notes.html.old" ++ lang_suffix (str "fr").
Proof. split; by vm_compute. Qed.

(** ** Strings *)

Lemma startswith_spec (s p : pystr) : startswith s p = true <-> p `prefix_of` s.
Proof.
  revert s. induction p as [|a p IH]; intros s.
  - split; [intros _; apply prefix_nil|by destruct s].
  - destruct s as [|c s]; simpl.
    + split; [done|]. intros H. by apply prefix_nil_inv in H.
    + destruct (decide (a = c)) as [->|Hne].
      * rewrite IH. split; [apply prefix_cons|apply prefix_cons_inv_2].
      * split; [done|]. intros H. by apply prefix_cons_inv_1 in H.
Qed.

Lemma endswith_spec (s p : pystr) : endswith s p = true <-> p `suffix_of` s.
Proof. unfold endswith. rewrite startswith_spec. by rewrite suffix_prefix_reverse. Qed.

Lemma endswith_app (stem p : pystr) : endswith (stem ++ p) p = true.
Proof. apply endswith_spec. by apply suffix_app_r. Qed.

(** On a string that ends in [.html], [re.sub] replaces that ending. *)
Lemma re_sub_dot_html_end_stem (repl stem : pystr) :
  re_sub_dot_html_end repl (stem ++ dot_html) = stem ++ repl.
Proof.
  unfold re_sub_dot_html_end. rewrite endswith_app.
  rewrite length_app, Nat.add_sub. by rewrite take_app_length.
Qed.

(** A supported language has no backslash, so [re.sub] takes the suffix
    [-<lang>.html] literally. *)
Lemma supported_language_no_backslash (target_lang : pystr) (info : LangInfo) :
  LANG_MAP !! target_lang = Some info -> backslash ∉ lang_suffix target_lang.
Proof.
  intros Hlang. unfold LANG_MAP in Hlang.
  apply elem_of_list_to_map_2 in Hlang.
  rewrite !elem_of_cons, elem_of_nil in Hlang.
  destruct Hlang as [[= -> _]|[[= -> _]|[[= -> _]|[]]]];
    apply (bool_decide_unpack _); by vm_compute.
Qed.

(** Once a match of [old] is found, the characters that remain of it are
    dropped. *)
Lemma replace_from_skip (old new s : pystr) :
  replace_from old new (length s) s = [].
Proof. induction s as [|c s IH]; [done|]. simpl. exact IH. Qed.

(** Where the only [.html] of a path is the one that ends it, [str.replace]
    rewrites the ending. *)
Lemma replace_single_suffix (old new stem : pystr) :
  old <> [] ->
  (forall a b, stem ++ old = a ++ old ++ b -> a = stem) ->
  replace (stem ++ old) old new = stem ++ new.
Proof.
  intros Hold. unfold replace. destruct old as [|o old']; [done|]. clear Hold.
  induction stem as [|c stem IH]; intros Honly.
  - simpl. rewrite decide_True by done.
    assert (Hself : startswith old' old' = true) by (by apply startswith_spec).
    rewrite Hself. rewrite replace_from_skip. by rewrite app_nil_r.
  - simpl.
    destruct (startswith (c :: stem ++ o :: old') (o :: old')) eqn:Hstart.
    + apply startswith_spec in Hstart. destruct Hstart as [b Hb].
      specialize (Honly [] b). simpl in Honly. by specialize (Honly Hb).
    + simpl in Hstart. rewrite Hstart. f_equal. apply IH. intros a b Hab.
      specialize (Honly (c :: a) b). simpl in Honly. rewrite Hab in Honly.
      by injection (Honly eq_refl).
Qed.

Lemma output_path_of_single_suffix (stem target_lang : pystr) :
  (forall a b, stem ++ dot_html = a ++ dot_html ++ b -> a = stem) ->
  output_path_of (stem ++ dot_html) target_lang = stem ++ lang_suffix target_lang.
Proof. intros Honly. unfold output_path_of. by apply replace_single_suffix. Qed.

(** ** The document walker *)

Lemma for_each_total {S A B} (body : A -> M S B) (R : A -> B -> Prop) (l : list A) :
  (forall x s, exists y s', body x s = (Ok y, s') /\ R x y) ->
  forall s, exists ys s', for_each body l s = (Ok ys, s') /\ Forall2 R l ys.
Proof.
  intros Hbody. induction l as [|x l IH]; intros s.
  - exists [], s. split; [done|constructor].
  - destruct (Hbody x s) as (y & s1 & Hx & Hy).
    destruct (IH s1) as (ys & s2 & Hl & Hys).
    exists (y :: ys), s2. simpl. unfold mbind, M_bind, mret, M_ret.
    rewrite Hx, Hl. split; [done|by constructor].
Qed.

Section Walker.

Context (env : Env).

Ltac run := unfold mbind, M_bind, mret, M_ret, try_except, raise, log, lift; simpl.

(** The link rewrite never raises, keeps the name of the tag, and makes of
    the [href] of a hyperlink what the specification says. *)
Lemma localize_link_spec (target_lang : pystr) (tag : Tag) (w : World) :
  exists tag' w',
    localize_link target_lang tag w = (Ok tag', w')
    /\ tag_name tag' = tag_name tag
    /\ (tag_name tag <> str "a" -> tag' = tag)
    /\ forall href, attrs tag !! str "href" = Some href ->
         tag_name tag = str "a" ->
         exists href', attrs tag' !! str "href" = Some href'
                       /\ localized target_lang href href'.
Proof.
  assert (Hsame : forall href, ~ (dot_html `suffix_of` href
                                  /\ ~ lang_suffix target_lang `suffix_of` href) ->
                               localized target_lang href href).
  { intros href Hnot. split; [|done]. intros stem -> Hno. exfalso. apply Hnot.
    split; [by apply suffix_app_r|done]. }
  unfold localize_link.
  destruct (decide (tag_name tag = str "a")) as [Ha|Hother].
  2: { exists tag, w. by repeat split. }
  destruct (attrs tag !! str "href") as [[|c h]|] eqn:Hhref.
  - exists tag, w. split; [done|]. split; [done|]. split; [done|]. intros href [= <-] _.
    exists []. split; [done|]. apply Hsame. intros [H _].
    apply suffix_nil_inv in H. discriminate H.
  - destruct (endswith (c :: h) dot_html) eqn:Hdot; simpl.
    + destruct (endswith (c :: h) (lang_suffix target_lang)) eqn:Hlang; simpl.
      * exists tag, w. split; [done|]. split; [done|]. split; [done|]. intros href [= <-] _.
        exists (c :: h). split; [done|]. apply Hsame. intros [_ H]. apply H.
        by apply endswith_spec.
      * run. eexists _, _. split; [reflexivity|]. split; [done|]. split; [done|].
        intros href [= <-] _. eexists. simpl.
        split; [apply lookup_insert_eq|]. split; [|split].
        -- intros stem Hstem _. rewrite Hstem. apply re_sub_dot_html_end_stem.
        -- intros H. apply endswith_spec in H. congruence.
        -- intros H. apply endswith_spec in Hdot. done.
    + exists tag, w. split; [done|]. split; [done|]. split; [done|]. intros href [= <-] _.
      exists (c :: h). split; [done|]. apply Hsame. intros [H _].
      apply endswith_spec in H. congruence.
  - exists tag, w. split; [done|]. split; [done|]. split; [done|]. by intros href.
Qed.

(** The translation of an attribute of an image returns, for a supported
    language. *)
Lemma translate_attr_total (target_lang attr : pystr) (info : LangInfo)
    (tag : Tag) (s : MemState) :
  LANG_MAP !! target_lang = Some info ->
  exists tag' s', translate_attr env target_lang attr tag s = (Ok tag', s').
Proof.
  intros Hlang. unfold translate_attr.
  destruct (attrs tag !! attr) as [[|c value]|]; try by eexists _, _.
  destruct s as [memory w].
  destruct (apply_translation_step env (c :: value) target_lang info memory w Hlang)
    as (out & memory' & evs & Hrun & _).
  run. rewrite Hrun. by eexists _, _.
Qed.

(** The body of the loop over the links and images, for a supported
    language: it returns, and the [href] of a hyperlink is localized. *)
Lemma process_tag_spec (target_lang : pystr) (info : LangInfo) (tag : Tag)
    (s : MemState) :
  LANG_MAP !! target_lang = Some info ->
  exists tag' s',
    process_tag env target_lang tag s = (Ok tag', s')
    /\ (tag_name tag = str "a" ->
        forall href, attrs tag !! str "href" = Some href ->
          exists href', attrs tag' !! str "href" = Some href'
                        /\ localized target_lang href href').
Proof.
  intros Hlang. destruct s as [memory w]. unfold process_tag. run.
  destruct (localize_link_spec target_lang tag w)
    as (tag1 & w1 & -> & Hname & Hother & Hhref). simpl.
  destruct (decide (tag_name tag1 = str "img")) as [Himg|Hnot].
  - destruct (translate_attr_total target_lang (str "alt") info tag1 (memory, w1) Hlang)
      as (tag2 & s2 & ->). simpl.
    destruct (translate_attr_total target_lang (str "title") info tag2 s2 Hlang)
      as (tag3 & s3 & ->).
    eexists _, _. split; [reflexivity|]. intros Ha. rewrite Hname, Ha in Himg.
    by vm_compute in Himg.
  - eexists _, _. split; [reflexivity|]. intros Ha href Hh. by apply Hhref.
Qed.

(** The body of the loop over the strings returns, for a supported
    language. *)
Lemma process_string_total (target_lang : pystr) (info : LangInfo)
    (element : TextNode) (s : MemState) :
  LANG_MAP !! target_lang = Some info ->
  exists r s', process_string env target_lang element s = (Ok r, s') /\ True.
Proof.
  intros Hlang. unfold process_string.
  destruct (decide (parent_name element = str "script")); [by eexists _, _|].
  destruct (decide (parent_name element = str "style")); [by eexists _, _|].
  destruct (decide (strip (content element) = [])); [by eexists _, _|].
  destruct s as [memory w].
  destruct (apply_translation_step env (strip (content element)) target_lang info
              memory w Hlang) as (out & memory' & evs & Hrun & _).
  run. rewrite Hrun.
  destruct (decide (out = strip (content element))); by eexists _, _.
Qed.

Lemma append_all_total (msg : pystr -> LogMsg) (section : option (list pystr))
    (tags : list pystr) (w : World) :
  exists w', append_all msg section tags w
             = (Ok (match section with
                    | Some children => Some (children ++ tags)
                    | None => None
                    end), w').
Proof.
  unfold append_all. destruct section as [children|]; [|by eexists].
  destruct (for_each_total (fun tag => log DEBUG (msg tag)) (fun _ _ => True) tags)
    with (s := w) as (ys & w' & Hrun & _).
  { intros x s. by eexists _, _. }
  unfold mbind, M_bind, mret, M_ret. rewrite Hrun. by eexists.
Qed.

(** C8. For a supported target language the walk of a document returns, and
    for every hyperlink of the document with a [href]: a [href] that ends in
    [.html] and not in [-<lang>.html] has its trailing [.html] replaced by
    [-<lang>.html]; a [href] that ends in [-<lang>.html] is left as it is;
    and a [href] that does not end in [.html] is left as it is. *)
Theorem links_are_localized
    (file_path target_lang : pystr) (info : LangInfo) (soup : Soup)
    (memory : gmap pystr pystr) (w : World) :
  LANG_MAP !! target_lang = Some info ->
  exists soup' translation_count s',
    walk env file_path target_lang soup (memory, w)
    = (Ok (soup', translation_count), s')
    /\ Forall2
         (fun tag tag' =>
            tag_name tag = str "a" ->
            forall href, attrs tag !! str "href" = Some href ->
              exists href', attrs tag' !! str "href" = Some href'
                            /\ localized target_lang href href')
         (link_img_tags soup) (link_img_tags soup').
Proof.
  intros Hlang. unfold walk.
  set (first_step := match html_attrs soup with
                     | Some a => mret (Some (<[str "lang" := target_lang]> a))
                     | None => lift (log WARNING (MsgNoHtmlTag file_path));; mret None
                     end : M MemState _).
  assert (Hfirst : exists html' s1, first_step (memory, w) = (Ok html', s1)).
  { unfold first_step. destruct (html_attrs soup); by eexists _, _. }
  destruct Hfirst as (html' & s1 & Hfirst).
  destruct (for_each_total (process_tag env target_lang)
              (fun tag tag' =>
                 tag_name tag = str "a" ->
                 forall href, attrs tag !! str "href" = Some href ->
                   exists href', attrs tag' !! str "href" = Some href'
                                 /\ localized target_lang href href')
              (link_img_tags soup)) with (s := s1)
    as (tags' & s2 & Htags & Hlinks).
  { intros tag s. by apply (process_tag_spec target_lang info). }
  destruct (for_each_total (process_string env target_lang) (fun _ _ => True)
              (strings soup)) with (s := s2) as (walked & s3 & Hstrings & _).
  { intros element s. by apply (process_string_total target_lang info). }
  unfold mbind, M_bind at 1. rewrite Hfirst.
  unfold mbind, M_bind at 1. rewrite Htags.
  unfold mbind, M_bind at 1. rewrite Hstrings.
  unfold inject_code. run.
  destruct (append_all_total MsgInjectedHead (head_appended soup) INJECT_HEAD s3.2)
    as (w4 & ->).
  destruct (append_all_total MsgInjectedBody (body_appended soup) INJECT_BODY w4)
    as (w5 & ->).
  eexists _, _, _. split; [reflexivity|]. done.
Qed.

End Walker.

(** ** The file pipeline *)

Lemma ends_with_save_app (before evs : list Event) :
  ends_with_save evs -> ends_with_save (before ++ evs).
Proof.
  intros [b [->|[e ->]]]; exists (before ++ b); rewrite app_assoc; eauto.
Qed.

Lemma ends_with_save_cons (e : Event) (evs : list Event) :
  ends_with_save evs -> ends_with_save (e :: evs).
Proof. apply (ends_with_save_app [e]). Qed.

Section FilePipeline.

Context (env : Env).

(** [load_memory] opens with the test of the memory file. *)
Lemma load_memory_trace (w : World) :
  exists evs,
    trace (snd (load_memory env w))
    = trace w ++ FsExists TRANSLATION_MEMORY :: evs.
Proof.
  unfold load_memory, mbind. unfold M_bind at 1. unfold os_path_exists at 1.
  match goal with
  | |- context [(if ?b then ?m else ?m') ?w1] =>
      assert (Hg : Grows trace (if b then m else m')) by grows;
      destruct (Hg w1) as [evs Hevs]
  end.
  exists evs. rewrite Hevs. simpl. by rewrite <- app_assoc.
Qed.

(** The end of [translate_html_file]: when it returns [True] its last act is
    [save_memory]. *)
Lemma write_and_save_trace (output_path : pystr) (soup' : Soup)
    (translation_count : nat) (memory' : gmap pystr pystr) (w : World) :
  let block :=
    try_except
      (open_write output_path;;
       text ← match prettify env soup' with
              | Ok t => mret t
              | Raise e => raise e
              end;
       f_write output_path text;;
       log INFO (MsgSaved output_path translation_count);;
       save_memory env memory';;
       mret true)
      (fun e => log ERROR (MsgFailedToSave output_path e);; mret false) in
  exists evs,
    trace (snd (block w)) = trace w ++ evs
    /\ (fst (block w) = Ok true -> ends_with_save evs).
Proof.
  intros block.
  unfold block, try_except, mbind, M_bind, mret, M_ret, raise, open_write,
    f_write, log.
  destruct (fs w !! output_path) as [[data|]|] eqn:Hfs; simpl;
    try (eexists; rewrite <- ?app_assoc; split; [reflexivity|done]).
  all: destruct (prettify env soup') as [text|e]; simpl;
    try (eexists; rewrite <- ?app_assoc; split; [reflexivity|done]).
  all: rewrite lookup_insert_eq; destruct (utf8_encode text) as [bytes|]; simpl;
    try (eexists; rewrite <- ?app_assoc; split; [reflexivity|done]).
  all: match goal with
       | |- context [save_memory env ?m ?w3] =>
           destruct (save_memory_spec env m w3) as (w4 & -> & Hsave)
       end; simpl; simpl in Hsave.
  all: destruct Hsave as [->|[e ->]]; eexists; rewrite <- !app_assoc;
    (split; [reflexivity|]); intros _; simpl.
  1,3: by exists [FsOpenWrite output_path;
                  Log INFO (MsgSaved output_path translation_count)]; left.
  all: exists [FsOpenWrite output_path;
               Log INFO (MsgSaved output_path translation_count)]; right;
    by exists e.
Qed.

(** The processing of a file opens with the load of the memory, and when it
    returns [True] it closes with the save of the memory. *)
Lemma translate_html_file_trace (file_path target_lang : pystr) (force : bool)
    (w : World) (r : result bool) (w' : World) :
  translate_html_file env file_path target_lang force w = (r, w') ->
  exists seg,
    trace w' = trace w ++ seg
    /\ starts_with_load seg
    /\ (r = Ok true -> ends_with_save seg).
Proof.
  destruct (load_memory_trace w) as [evs0 Hload].
  unfold translate_html_file. unfold mbind at 1; unfold M_bind at 1.
  destruct (load_memory env w) as [[memory|e] w0]; simpl in Hload.
  2: { intros [= <- <-]. exists (FsExists TRANSLATION_MEMORY :: evs0).
       split; [done|]. split; [by eexists|done]. }
  unfold mbind at 1; unfold M_bind at 1. unfold os_path_exists at 1.
  set (w1 := emit (FsExists (output_path_of file_path target_lang)) w0).
  assert (Hw1 : trace w1 = trace w ++ FsExists TRANSLATION_MEMORY
                             :: evs0 ++ [FsExists (output_path_of file_path target_lang)]).
  { unfold w1. simpl. rewrite Hload. by rewrite <- app_assoc. }
  clearbody w1.
  destruct (bool_decide _ && negb force).
  { simpl. intros [= <- <-]. eexists. simpl. rewrite Hw1, <- app_assoc.
    split; [reflexivity|]. split; [by eexists|done]. }
  unfold mbind at 1; unfold M_bind at 1.
  match goal with
  | |- context [try_except ?m ?h w1] =>
      assert (Hg : Grows trace (try_except m h)) by grows;
      destruct (Hg w1) as [evs2 Hparse];
      destruct (try_except m h w1) as [[[soup|]|e] w2]
  end; simpl in Hparse.
  2,3: intros [= <- <-]; eexists;
    rewrite Hparse, Hw1, <- ?app_assoc; simpl; rewrite <- ?app_assoc;
    (split; [reflexivity|]); (split; [by eexists|done]).
  unfold mbind at 1; unfold M_bind at 1.
  pose proof (grows_with_memory memory _ (grows_walk env file_path target_lang soup) w2)
    as [evs3 Hwalk].
  destruct (with_memory memory (walk env file_path target_lang soup) w2)
    as [[[[soup' translation_count] memory']|e] w3]; simpl in Hwalk.
  2: { intros [= <- <-]. eexists.
       rewrite Hwalk, Hparse, Hw1, <- ?app_assoc. simpl. rewrite <- ?app_assoc.
       split; [reflexivity|]. split; [by eexists|done]. }
  destruct (write_and_save_trace (output_path_of file_path target_lang) soup'
              translation_count memory' w3) as (evs4 & Hend & Hsave).
  cbv zeta in Hend, Hsave.
  intros Hrun. rewrite Hrun in Hend, Hsave. simpl in Hend, Hsave.
  eexists.
  rewrite Hend, Hwalk, Hparse, Hw1, <- ?app_assoc. simpl. rewrite <- ?app_assoc.
  split; [reflexivity|]. split; [by eexists|]. intros Htrue.
  repeat first [apply ends_with_save_cons | apply ends_with_save_app].
  by apply Hsave.
Qed.

End FilePipeline.

Section Batch.

Context (env : Env).

Lemma translate_files_trace (html_files : list pystr) (lang : pystr) (force : bool)
    (success_count n : nat) (w w' : World) :
  translate_files env html_files lang force success_count w = (Ok n, w') ->
  exists runs : list (bool * list Event),
    length runs = length html_files
    /\ trace w' = trace w ++ concat (snd <$> runs)
    /\ n = (success_count + length (filter (fun run => fst run = true) runs))%nat
    /\ Forall (fun run => starts_with_load (snd run)
                          /\ (fst run = true -> ends_with_save (snd run))) runs.
Proof.
  revert success_count w. induction html_files as [|file rest IH];
    intros success_count w.
  { intros [= <- <-]. exists []. simpl. rewrite app_nil_r.
    split; [done|]. split; [done|]. split; [lia|constructor]. }
  simpl. unfold mbind at 1; unfold M_bind at 1.
  destruct (translate_html_file env file lang force w) as [[translated|e] w1] eqn:Hfile;
    [|done].
  destruct (translate_html_file_trace env file lang force w _ _ Hfile)
    as (seg & Hseg & Hload & Hsave).
  intros Hrest. destruct (IH _ _ Hrest) as (runs & Hlen & Htrace & Hn & Hruns).
  exists ((translated, seg) :: runs). simpl. split; [by rewrite Hlen|].
  split; [by rewrite Htrace, Hseg, <- app_assoc|]. split.
  - rewrite Hn. destruct translated.
    + rewrite filter_cons_True by done. simpl. lia.
    + rewrite filter_cons_False by done. lia.
  - constructor; [|done]. simpl. split; [done|]. intros ->. by apply Hsave.
Qed.

(** C6 (as amended). In a batch that runs to its end, the trace is made of
    one part per file, in order, followed by the summary; every part opens
    with the load of the memory from durable storage, so the memory is
    loaded at the start of the processing of every file; and the part of
    every file that was translated closes with the save of the memory, so
    the memory is flushed after every file whose output was written.  The
    number of successes reported is the number of those parts. *)
Theorem memory_is_loaded_and_saved_per_file
    (html_files : list pystr) (lang : pystr) (force : bool)
    (n : nat) (w w' : World) :
  process_each_file env html_files lang force w = (Ok n, w') ->
  exists runs : list (bool * list Event),
    length runs = length html_files
    /\ trace w' = trace w ++ concat (snd <$> runs)
                    ++ [Log INFO (MsgTranslationComplete n (length html_files) lang)]
    /\ n = length (filter (fun run => fst run = true) runs)
    /\ Forall (fun run => starts_with_load (snd run)
                          /\ (fst run = true -> ends_with_save (snd run))) runs.
Proof.
  unfold process_each_file. unfold mbind at 1; unfold M_bind at 1.
  destruct (translate_files env html_files lang force 0 w) as [[count|e] w1] eqn:Hfiles;
    [|done].
  destruct (translate_files_trace _ _ _ _ _ _ _ Hfiles)
    as (runs & Hlen & Htrace & Hn & Hruns).
  intros [= <- <-]. exists runs. simpl. split; [done|].
  split; [by rewrite Htrace, <- app_assoc|]. done.
Qed.

End Batch.

(** ** The [--include] option *)

(** C9. With [--include] the files processed are the files found whose name
    is one of the comma-separated names: a file that is not listed is not
    in the input set. *)
Theorem include_restricts_processing
    (names : pystr) (html_files : list pystr) (file : pystr) :
  (file ∈ restrict_to_included (Some names) html_files
   <-> file ∈ html_files /\ basename file ∈ split_comma names)
  /\ (basename file ∉ split_comma names ->
      file ∉ restrict_to_included (Some names) html_files).
Proof.
  unfold restrict_to_included. split.
  - rewrite list_elem_of_filter. tauto.
  - rewrite list_elem_of_filter. tauto.
Qed.

(** * The theorems at concrete inputs *)

(** [env_fallback] is the environment of the fallback scenario: its bulk
    provider returns its input and its paid provider returns its language
    argument, a colon and its input. *)
Lemma env_fallback_bulk (t l : pystr) (w : World) :
  fst (translate_with_libre env_fallback t l w) = Ok t.
Proof. reflexivity. Qed.

Lemma env_fallback_paid (t c : pystr) (w : World) :
  fst (translate_with_deepl env_fallback t c w) = Ok (c ++ str ":" ++ t).
Proof. reflexivity. Qed.

Lemma apply_translation_refines_resolve_witness :
  strip (str "  ") = []
  /\ apply_translation env_fallback (str "  ") (str "fr") (∅, no_files)
     = (Ok [], (∅, no_files)).
Proof.
  split; [reflexivity|].
  apply (apply_translation_refines_resolve env_fallback (str "  ") (str "fr") ∅ no_files).
  reflexivity.
Defined.

Lemma resolver_memoizes_witness :
  exists outs memory' evs,
    resolve_all env_fallback [str "Hello"; str " Hello "; str "Hello"] (str "es")
      (∅, no_files)
    = (Ok outs, (memory', extend no_files evs))
    /\ length outs = 3%nat
    /\ (forall t,
          (chain_runs t (str "es") evs <= 1)%nat
          /\ (is_Some ((∅ : gmap pystr pystr) !! t) ->
              chain_runs t (str "es") evs = 0%nat))
    /\ (forall i j a b,
          [str "Hello"; str " Hello "; str "Hello"] !! i = Some a ->
          [str "Hello"; str " Hello "; str "Hello"] !! j = Some b ->
          strip a = strip b -> outs !! i = outs !! j).
Proof.
  apply (resolver_memoizes env_fallback
           [str "Hello"; str " Hello "; str "Hello"] (str "es")
           (mkLang (str "Spanish") (str "ES")) ∅ no_files).
  reflexivity.
Defined.

(** C3, the claim as stated fails: in the fallback scenario the result is
    [ES:Hello], not [es:Hello]. *)
Lemma paid_provider_fallback_counterexample :
  (forall t l w, fst (translate_with_libre env_fallback t l w) = Ok t)
  /\ (forall t c w,
        fst (translate_with_deepl env_fallback t c w) = Ok (c ++ str ":" ++ t))
  /\ fst (apply_translation env_fallback (str "Hello") (str "es") (∅, no_files))
     = Ok (str "ES:Hello")
  /\ fst (apply_translation env_fallback (str "Hello") (str "es") (∅, no_files))
     <> Ok (str "es:Hello").
Proof.
  split; [exact env_fallback_bulk|]. split; [exact env_fallback_paid|].
  split; [by vm_compute|]. by vm_compute.
Qed.

Lemma paid_provider_is_a_fallback_witness :
  Forall (fun e => provider_of e <> Some Paid)
    (events_since 0
       (snd (snd (apply_translation env_refinement_fails (str "Hello") (str "fr")
                    (∅, no_files)))))
  /\ translate_with_deepl env_refinement_fails (str "Hello") (str "FR") no_files
     = (Ok (str "Hello"), extend no_files [Log DEBUG MsgNoDeeplKey])
  /\ exists w',
       apply_translation env_fallback (str "Hello") (str "es") (∅, no_files)
       = (Ok (str "ES:Hello"), ({[ str "Hello" := str "ES:Hello" ]}, w')).
Proof.
  split; [|split].
  - eapply (proj1 (paid_provider_is_a_fallback env_refinement_fails
                     (str "Hello") (str "fr") ∅ no_files)).
    + by vm_compute.
    + reflexivity.
    + reflexivity.
    + by vm_compute.
  - apply (proj1 (proj2 (paid_provider_is_a_fallback env_refinement_fails
                           (str "Hello") (str "fr") ∅ no_files))).
    reflexivity.
  - apply (proj2 (proj2 (paid_provider_is_a_fallback env_fallback
                           (str "Hello") (str "es") ∅ no_files))).
    + exact env_fallback_bulk.
    + exact env_fallback_paid.
    + reflexivity.
Defined.

Lemma refinement_pass_falls_back_witness :
  exists w',
    apply_translation env_refinement_fails (str "Hello") (str "fr") (∅, no_files)
    = (Ok (str "Bonjour"), ({[ str "Hello" := str "Bonjour" ]}, w')).
Proof.
  apply (proj2 (proj2 (refinement_pass_falls_back env_refinement_fails
           (str "Hello") (str "fr") (str "Bonjour") ∅ no_files
           (snd (snd (candidate_translation env_refinement_fails (str "Hello")
                        (str "fr")
                        (∅, emit (Log INFO (MsgTranslating (str "Hello"))) no_files))))
           ltac:(by vm_compute) ltac:(reflexivity) ltac:(reflexivity)))).
  - by vm_compute.
  - reflexivity.
  - reflexivity.
Defined.

Lemma links_are_localized_witness :
  exists soup' translation_count s',
    walk env_links (str "index.html") (str "fr") soup_links (∅, no_files)
    = (Ok (soup', translation_count), s')
    /\ Forall2
         (fun tag tag' =>
            tag_name tag = str "a" ->
            forall href, attrs tag !! str "href" = Some href ->
              exists href', attrs tag' !! str "href" = Some href'
                            /\ localized (str "fr") href href')
         (link_img_tags soup_links) (link_img_tags soup').
Proof.
  apply (links_are_localized env_links (str "index.html") (str "fr")
           (mkLang (str "French") (str "FR")) soup_links ∅ no_files).
  reflexivity.
Defined.

(** The three links of the specification under the walk: [about.html]
    becomes [about-fr.html], [about-fr.html] and [https://example.com] stay. *)
Example walk_rewrites_links :
  (fun run => match fst run with
              | Ok (soup', _) =>
                  (fun tag => attrs tag !! str "href") <$> link_img_tags soup'
              | Raise _ => []
              end)
    (walk env_links (str "index.html") (str "fr") soup_links (∅, no_files))
  = [Some (str "about-fr.html"); Some (str "about-fr.html");
     Some (str "https://example.com")].
Proof. by vm_compute. Qed.

(** C6, the claim as stated fails: in a batch of two pages the memory is
    loaded from durable storage twice, once per page, not once at the start
    of the run.  And a page that was processed, its text sent to the bulk
    provider, but whose output could not be written, is not followed by a
    flush: the memory file is never opened for writing. *)
Lemma memory_loaded_once_counterexample :
  (fst (process_each_file env_fallback [str "./a.html"; str "./b.html"] (str "fr")
          false world_two_pages) = Ok 2%nat
   /\ memory_loads
        (trace (snd (process_each_file env_fallback [str "./a.html"; str "./b.html"]
                       (str "fr") false world_two_pages))) = 2%nat
   /\ memory_loads
        (trace (snd (process_each_file env_fallback [str "./a.html"; str "./b.html"]
                       (str "fr") false world_two_pages))) <> 1%nat)
  /\ (fst (process_each_file env_links [str "./a.html"] (str "fr") true
             world_unwritable_output) = Ok 0%nat
      /\ chain_runs (str "Hello") (str "fr")
           (trace (snd (process_each_file env_links [str "./a.html"] (str "fr") true
                          world_unwritable_output))) = 1%nat
      /\ occ (FsOpenWrite TRANSLATION_MEMORY)
           (trace (snd (process_each_file env_links [str "./a.html"] (str "fr") true
                          world_unwritable_output))) = 0%nat).
Proof. repeat split; by vm_compute. Qed.

Lemma memory_is_loaded_and_saved_per_file_witness :
  exists runs : list (bool * list Event),
    length runs = 2%nat
    /\ trace (snd (process_each_file env_fallback [str "./a.html"; str "./b.html"]
                     (str "fr") false world_two_pages))
       = trace world_two_pages ++ concat (snd <$> runs)
           ++ [Log INFO (MsgTranslationComplete 2 2 (str "fr"))]
    /\ 2%nat = length (filter (fun run => fst run = true) runs)
    /\ Forall (fun run => starts_with_load (snd run)
                          /\ (fst run = true -> ends_with_save (snd run))) runs.
Proof.
  apply (memory_is_loaded_and_saved_per_file env_fallback
           [str "./a.html"; str "./b.html"] (str "fr") false 2 world_two_pages).
  by vm_compute.
Defined.

(** * Further properties of the code *)

(** ** Trimming *)

Lemma lstrip_idem (s : pystr) : lstrip (lstrip s) = lstrip s.
Proof.
  induction s as [|c s IH]; [done|]. simpl.
  destruct (isspace c) eqn:Hc; [done|]. simpl. by rewrite Hc.
Qed.

Lemma lstrip_length (s : pystr) : (length (lstrip s) <= length s)%nat.
Proof.
  induction s as [|c s IH]; [done|]. simpl.
  destruct (isspace c); simpl; lia.
Qed.

(** What [lstrip] keeps is the end of the string. *)
Lemma lstrip_suffix (s : pystr) : exists spaces, s = spaces ++ lstrip s.
Proof.
  induction s as [|c s [spaces IH]]; [by exists []|]. simpl.
  destruct (isspace c).
  - exists (c :: spaces). simpl. by rewrite <- IH.
  - by exists [].
Qed.

Lemma lstrip_fixed_head (c : N) (s : pystr) :
  lstrip (c :: s) = c :: s -> isspace c = false.
Proof.
  simpl. destruct (isspace c); [|done]. intros H.
  pose proof (lstrip_length s) as Hlen. rewrite H in Hlen. simpl in Hlen. lia.
Qed.

Lemma rstrip_idem (s : pystr) : rstrip (rstrip s) = rstrip s.
Proof. unfold rstrip. by rewrite reverse_involutive, lstrip_idem. Qed.

(** Trimming the end of a string that has no space in front leaves it
    without a space in front. *)
Lemma lstrip_rstrip (t : pystr) : lstrip t = t -> lstrip (rstrip t) = rstrip t.
Proof.
  intros Ht. destruct (lstrip_suffix (reverse t)) as [spaces Hsp].
  assert (Hpre : t = rstrip t ++ reverse spaces).
  { unfold rstrip. rewrite <- reverse_app, <- Hsp. by rewrite reverse_involutive. }
  destruct (rstrip t) as [|c u] eqn:Hr; [done|].
  rewrite Hpre in Ht. simpl in Ht. apply lstrip_fixed_head in Ht.
  simpl. by rewrite Ht.
Qed.

Lemma strip_idem (s : pystr) : strip (strip s) = strip s.
Proof.
  unfold strip. rewrite lstrip_rstrip by apply lstrip_idem. apply rstrip_idem.
Qed.

(** ** The resolver, further *)

Section ResolverFurther.

Context (env : Env).

(** The outcomes of a call of [apply_translation]. *)
Lemma apply_translation_cases
    (text target_lang : pystr) (memory : gmap pystr pystr) (w : World) :
  exists r memory' evs,
    apply_translation env text target_lang (memory, w)
    = (r, (memory', extend w evs))
    /\ ((r = Raise KeyError /\ LANG_MAP !! target_lang = None /\ memory' = memory
         /\ strip text <> [] /\ memory !! strip text = None)
        \/ (r = Ok [] /\ strip text = [] /\ memory' = memory /\ evs = [])
        \/ (exists stored, r = Ok stored /\ strip text <> []
              /\ memory !! strip text = Some stored /\ memory' = memory
              /\ requests evs = [])
        \/ (exists final, r = Ok final /\ strip text <> []
              /\ memory !! strip text = None
              /\ memory' = <[strip text := final]> memory)).
Proof.
  destruct (decide (strip text = [])) as [Hempty|Hne].
  { exists (Ok []), memory, []. rewrite extend_nil. unfold apply_translation.
    rewrite decide_True by done. rewrite Hempty. split; [done|].
    right; left. done. }
  destruct (memory !! strip text) as [stored|] eqn:Hhit.
  { eexists _, _, _. rewrite (apply_translation_hit env _ _ stored) by done.
    split; [reflexivity|]. right; right; left. by exists stored. }
  destruct (apply_translation_miss_spec env text target_lang memory w Hne Hhit)
    as (evs & [[Hrun Hnone]|[final Hrun]] & _).
  - eexists _, _, _. split; [exact Hrun|]. by left.
  - eexists _, _, _. split; [exact Hrun|]. right; right; right. by exists final.
Qed.

(** X1. [apply_translation] raises nothing but [KeyError], and that only
    for a target language that is not a key of [LANG_MAP], before it has
    written to the memory; and no call changes the files. *)
Theorem apply_translation_raises_only_key_error
    (text target_lang : pystr) (memory : gmap pystr pystr) (w : World) :
  (forall e,
     fst (apply_translation env text target_lang (memory, w)) = Raise e ->
     e = KeyError /\ LANG_MAP !! target_lang = None
     /\ fst (snd (apply_translation env text target_lang (memory, w))) = memory)
  /\ fs (snd (snd (apply_translation env text target_lang (memory, w)))) = fs w.
Proof.
  destruct (apply_translation_cases text target_lang memory w)
    as (r & memory' & evs & -> & Hcases). simpl. split; [|done].
  intros e ->.
  destruct Hcases as [(He & Hlang & Hmem & _)|[(He & _)|[(x & He & _)|(x & He & _)]]];
    try discriminate He.
  injection He as ->. done.
Qed.

(** X2. The value a call returns for a text that is not empty once trimmed
    is the value the memory holds for the trimmed text after the call. *)
Theorem apply_translation_returns_the_recorded_value
    (text target_lang out : pystr) (memory memory' : gmap pystr pystr)
    (w w' : World) :
  apply_translation env text target_lang (memory, w) = (Ok out, (memory', w')) ->
  strip text <> [] ->
  memory' !! strip text = Some out.
Proof.
  intros Hrun Hne.
  destruct (apply_translation_cases text target_lang memory w)
    as (r & m & evs & Hrun' & Hcases).
  rewrite Hrun in Hrun'. injection Hrun' as <- <- _.
  destruct Hcases as [(He & _)|[(_ & He & _)|[(x & He & _ & Hx & -> & _)|(x & He & _ & _ & ->)]]];
    try done.
  - by injection He as <-.
  - injection He as <-. by rewrite lookup_insert_eq.
Qed.

(** X3. A call looks at its text only through the trimmed text: the call on
    the trimmed text does the same. *)
Theorem apply_translation_of_stripped (text target_lang : pystr) (s : MemState) :
  apply_translation env (strip text) target_lang s
  = apply_translation env text target_lang s.
Proof. unfold apply_translation. by rewrite strip_idem. Qed.

(** X4. The keys of the memory stay trimmed and non-empty: a memory whose
    keys are all trimmed and non-empty is still so after any call. *)
Theorem apply_translation_keeps_keys_stripped
    (text target_lang : pystr) (memory : gmap pystr pystr) (w : World) :
  stripped_keys memory ->
  stripped_keys (fst (snd (apply_translation env text target_lang (memory, w)))).
Proof.
  intros Hkeys.
  destruct (apply_translation_cases text target_lang memory w)
    as (r & memory' & evs & -> & Hcases). simpl.
  destruct Hcases as [(_ & _ & -> & _)|[(_ & _ & -> & _)|[(x & _ & _ & _ & -> & _)|(x & _ & Hne & _ & ->)]]];
    try done.
  intros k [v Hk]. destruct (decide (k = strip text)) as [->|Hother].
  - split; [apply strip_idem|done].
  - rewrite lookup_insert_ne in Hk by done. apply Hkeys. by exists v.
Qed.

(** X5. The memory is not keyed by the target language: once a call has
    returned a value for a text, a call for the same text and any other
    target language returns that value, makes no request and leaves the
    memory as it is. *)
Theorem apply_translation_hit_ignores_language
    (text lang1 lang2 out : pystr) (memory memory' : gmap pystr pystr)
    (w w' : World) :
  apply_translation env text lang1 (memory, w) = (Ok out, (memory', w')) ->
  exists w'',
    apply_translation env text lang2 (memory', w') = (Ok out, (memory', w''))
    /\ history w'' = history w' /\ fs w'' = fs w'.
Proof.
  intros Hrun. destruct (decide (strip text = [])) as [Hempty|Hne].
  - exists w'. unfold apply_translation in *. rewrite decide_True in * by done.
    by injection Hrun as <- <- <-.
  - assert (Hrec : memory' !! strip text = Some out).
    { destruct (apply_translation_cases text lang1 memory w)
        as (r & m & evs & Hrun' & Hcases).
      rewrite Hrun in Hrun'. injection Hrun' as <- <- _.
      destruct Hcases as [(He & _)|[(_ & He & _)|[(x & He & _ & Hx & -> & _)|(x & He & _ & _ & ->)]]];
        try done.
      - by injection He as <-.
      - injection He as <-. by rewrite lookup_insert_eq. }
    eexists. rewrite (apply_translation_hit env _ _ out) by done.
    split; [reflexivity|]. split; [|done]. rewrite history_extend. simpl.
    by rewrite app_nil_r.
Qed.

End ResolverFurther.

(** ** The providers, further *)

Lemma history_request (w : World) (e : Event) :
  is_request e = true -> history (emit e w) = history w ++ [e].
Proof.
  intros He. unfold emit. rewrite history_extend. unfold requests.
  by rewrite filter_cons_True, filter_nil by by rewrite He.
Qed.

Section ProvidersFurther.

Context (env : Env).

Ltac run := unfold mbind, M_bind, mret, M_ret, try_except, raise, log,
  requests_post_libre, requests_post_deepl, openai_create; simpl.

Lemma translate_with_libre_from_first_usable
    (servers : list pystr) (text target_lang : pystr) (w : World) :
  fst (translate_with_libre_from env servers text target_lang w)
  = Ok (default text (first_usable env (history w) servers text target_lang))
  /\ fs (snd (translate_with_libre_from env servers text target_lang w)) = fs w
  /\ history (snd (translate_with_libre_from env servers text target_lang w))
     = history w ++ libre_requests env (history w) servers text target_lang.
Proof.
  revert w. induction servers as [|server rest IH]; intros w.
  { simpl. run. split; [done|]. split; [done|].
    by rewrite history_log, app_nil_r. }
  simpl. run. rewrite history_log.
  assert (Hnext : forall w1,
    fs w1 = fs w ->
    history w1 = history w ++ [LibrePost server text target_lang] ->
    fst (translate_with_libre_from env rest text target_lang w1)
    = Ok (default text
            (first_usable env (history w ++ [LibrePost server text target_lang])
               rest text target_lang))
    /\ fs (snd (translate_with_libre_from env rest text target_lang w1)) = fs w
    /\ history (snd (translate_with_libre_from env rest text target_lang w1))
       = history w ++ LibrePost server text target_lang
           :: libre_requests env (history w ++ [LibrePost server text target_lang])
                rest text target_lang).
  { intros w1 Hfs Hh. destruct (IH w1) as (H1 & H2 & H3).
    rewrite Hh in H1, H3. split; [done|]. split; [congruence|].
    rewrite H3. by rewrite <- app_assoc. }
  destruct (libre_post env (history w) server text target_lang)
    as [[ok translated]|]; simpl.
  - destruct ok; [destruct translated as [translated|]|]; simpl.
    + split; [done|]. split; [done|].
      by rewrite history_request, history_log.
    + apply Hnext; [done|].
      by rewrite history_log, history_request, history_log.
    + apply Hnext; [done|]. by rewrite history_request, history_log.
  - apply Hnext; [done|].
    by rewrite history_log, history_request, history_log.
Qed.

(** X6. [translate_with_libre] never raises and leaves the files alone; it
    asks the servers of [LIBRE_SERVERS] in order, each after the requests
    made before, and stops at the first whose request does not raise and
    whose response is [ok] and holds a translated text; it returns that
    text, or its input when no server gives one. *)
Theorem translate_with_libre_first_usable
    (text target_lang : pystr) (w : World) :
  fst (translate_with_libre env text target_lang w)
  = Ok (default text (first_usable env (history w) LIBRE_SERVERS text target_lang))
  /\ fs (snd (translate_with_libre env text target_lang w)) = fs w
  /\ history (snd (translate_with_libre env text target_lang w))
     = history w ++ libre_requests env (history w) LIBRE_SERVERS text target_lang.
Proof. apply translate_with_libre_from_first_usable. Qed.

(** X7. [translate_with_deepl] never raises and leaves the files alone; it
    makes one request, with the key, when there is a key, and none
    otherwise; it returns the text of the response when the request does
    not raise, the status is 200 and the response holds a text, and its
    input in every other case. *)
Theorem translate_with_deepl_answer
    (text target_lang_code : pystr) (w : World) :
  fst (translate_with_deepl env text target_lang_code w)
  = Ok (default text (deepl_answer env (history w) text target_lang_code))
  /\ fs (snd (translate_with_deepl env text target_lang_code w)) = fs w
  /\ history (snd (translate_with_deepl env text target_lang_code w))
     = history w ++ deepl_requests env text target_lang_code.
Proof.
  unfold translate_with_deepl, deepl_answer, deepl_requests.
  destruct (DEEPL_API_KEY env) as [[|c key]|]; run;
    try (split; [done|]; split; [done|]; by rewrite history_log, app_nil_r).
  rewrite history_log.
  destruct (deepl_post env (history w) (c :: key) text target_lang_code)
    as [[status translated]|]; simpl.
  - destruct (status =? 200)%Z; simpl; [destruct translated as [translated|]|];
      simpl; (split; [done|]); (split; [done|]);
      by rewrite ?history_log, history_request, history_log.
  - split; [done|]. split; [done|].
    by rewrite history_log, history_request, history_log.
Qed.

(** X8. [refine_with_gpt] never raises and leaves the files alone; it calls
    the service once when the refinement is available and the language is a
    key of [LANG_MAP], and not at all otherwise; it returns the content of
    the answer, trimmed, when the call does not raise, and the translation
    it was given in every other case. *)
Theorem refine_with_gpt_answer
    (text translation target_lang : pystr) (w : World) :
  fst (refine_with_gpt env text translation target_lang w)
  = Ok (default translation
          (gpt_answer env (history w) text translation target_lang))
  /\ fs (snd (refine_with_gpt env text translation target_lang w)) = fs w
  /\ history (snd (refine_with_gpt env text translation target_lang w))
     = history w ++ gpt_requests env text translation target_lang.
Proof.
  unfold refine_with_gpt, gpt_answer, gpt_requests, lang_info.
  destruct (has_openai env); run.
  2: { split; [done|]. split; [done|]. by rewrite history_log, app_nil_r. }
  destruct (LANG_MAP !! target_lang) as [info|]; run.
  2: { split; [done|]. split; [done|]. by rewrite !history_log, app_nil_r. }
  rewrite history_log.
  destruct (gpt_content env (history w) _) as [c|]; simpl;
    (split; [done|]); (split; [done|]);
    by rewrite ?history_log, history_request, history_log.
Qed.

End ProvidersFurther.

(** ** UTF-8 *)

Ltac divlia := zify; Z.to_euclidean_division_equations; lia.

Ltac decide_comparisons :=
  repeat match goal with
  | |- context [N.ltb ?a ?b] =>
      first [ rewrite (proj2 (N.ltb_lt a b)) by divlia
            | rewrite (proj2 (N.ltb_ge a b)) by divlia ]
  | |- context [N.leb ?a ?b] =>
      first [ rewrite (proj2 (N.leb_le a b)) by divlia
            | rewrite (proj2 (N.leb_gt a b)) by divlia ]
  | |- context [N.eqb ?a ?b] =>
      first [ rewrite (proj2 (N.eqb_eq a b)) by divlia
            | rewrite (proj2 (N.eqb_neq a b)) by divlia ]
  end.

Lemma byte_to_of_N (n : N) : n < 256 -> Byte.to_N (byte_of_N n) = n.
Proof.
  intros Hn. unfold byte_of_N. destruct (Byte.of_N n) as [b|] eqn:Hb.
  - by apply Byte.to_of_N.
  - apply Byte.of_N_None_iff in Hb. lia.
Qed.

Lemma utf8_decode_N_cons (fuel : nat) (b0 : N) (r0 : list N) :
  utf8_decode_N (S fuel) (b0 :: r0)
  = if b0 <? 128 then cons b0 <$> utf8_decode_N fuel r0
    else if (194 <=? b0) && (b0 <=? 223) then
      match r0 with
      | b1 :: r1 =>
          if is_cont b1
          then cons ((b0 - 192) * 64 + (b1 - 128)) <$> utf8_decode_N fuel r1
          else None
      | _ => None
      end
    else if (224 <=? b0) && (b0 <=? 239) then
      match r0 with
      | b1 :: b2 :: r2 =>
          if is_cont b1 && is_cont b2
             && negb ((b0 =? 224) && (b1 <? 160))
             && negb ((b0 =? 237) && (159 <? b1))
          then cons ((b0 - 224) * 4096 + (b1 - 128) * 64 + (b2 - 128))
                 <$> utf8_decode_N fuel r2
          else None
      | _ => None
      end
    else if (240 <=? b0) && (b0 <=? 244) then
      match r0 with
      | b1 :: b2 :: b3 :: r3 =>
          if is_cont b1 && is_cont b2 && is_cont b3
             && negb ((b0 =? 240) && (b1 <? 144))
             && negb ((b0 =? 244) && (143 <? b1))
          then cons ((b0 - 240) * 262144 + (b1 - 128) * 4096
                     + (b2 - 128) * 64 + (b3 - 128))
                 <$> utf8_decode_N fuel r3
          else None
      | _ => None
      end
    else None.
Proof. reflexivity. Qed.

(** The decoder reads back the bytes of one encoded character. *)
Lemma utf8_decode_char (c : N) (bs : list byte) (rest : list N) (fuel : nat) :
  utf8_encode_char c = Some bs ->
  utf8_decode_N (S fuel) ((Byte.to_N <$> bs) ++ rest)
  = cons c <$> utf8_decode_N fuel rest.
Proof.
  unfold utf8_encode_char. intros Henc.
  destruct (N.ltb_spec c 128) as [H1|H1].
  { injection Henc as <-. rewrite fmap_cons, fmap_nil, byte_to_of_N by lia.
    change ([c] ++ rest) with (c :: rest). rewrite utf8_decode_N_cons.
    by decide_comparisons. }
  destruct (N.ltb_spec c 2048) as [H2|H2].
  { injection Henc as <-. rewrite !fmap_cons, fmap_nil, !byte_to_of_N by divlia.
    simpl app. rewrite utf8_decode_N_cons. unfold is_cont.
    decide_comparisons. simpl. do 2 f_equal. divlia. }
  destruct ((55296 <=? c) && (c <=? 57343)) eqn:Hsur; [done|].
  assert (Hnot : c < 55296 \/ 57343 < c).
  { apply andb_false_iff in Hsur as [H|H]; [left; by apply N.leb_gt|right; by apply N.leb_gt]. }
  destruct (N.ltb_spec c 65536) as [H3|H3].
  { injection Henc as <-. rewrite !fmap_cons, fmap_nil, !byte_to_of_N by divlia.
    simpl app. rewrite utf8_decode_N_cons. unfold is_cont.
    decide_comparisons.
    destruct (N.eqb_spec (224 + c / 4096) 224) as [Ha|Ha];
      destruct (N.eqb_spec (224 + c / 4096) 237) as [Hb|Hb];
      decide_comparisons; simpl; try (do 2 f_equal; divlia); divlia. }
  destruct (N.ltb_spec c 1114112) as [H4|H4]; [|done].
  injection Henc as <-. rewrite !fmap_cons, fmap_nil, !byte_to_of_N by divlia.
  simpl app. rewrite utf8_decode_N_cons. unfold is_cont.
  decide_comparisons.
  destruct (N.eqb_spec (240 + c / 262144) 240) as [Ha|Ha];
    destruct (N.eqb_spec (240 + c / 262144) 244) as [Hb|Hb];
    decide_comparisons; simpl; try (do 2 f_equal; divlia); divlia.
Qed.

Lemma utf8_encode_char_length (c : N) (bs : list byte) :
  utf8_encode_char c = Some bs -> (1 <= length bs)%nat.
Proof.
  unfold utf8_encode_char. intros H.
  repeat match type of H with
         | (if ?b then _ else _) = _ => destruct b
         end; try discriminate H; injection H as <-; simpl; lia.
Qed.

(** What the encoder writes, the decoder reads back. *)
Lemma utf8_decode_N_encode (s : pystr) (bs : list byte) (fuel : nat) :
  utf8_encode s = Some bs ->
  (length bs <= fuel)%nat ->
  utf8_decode_N fuel (Byte.to_N <$> bs) = Some s.
Proof.
  revert bs fuel. induction s as [|c s IH]; intros bs fuel Henc Hfuel.
  { injection Henc as <-. by destruct fuel. }
  simpl in Henc. destruct (utf8_encode_char c) as [bc|] eqn:Hc; [|done].
  destruct (utf8_encode s) as [r|] eqn:Hs; [|done]. injection Henc as <-.
  pose proof (utf8_encode_char_length c bc Hc) as Hlen.
  rewrite length_app in Hfuel. destruct fuel as [|fuel]; [lia|].
  rewrite fmap_app, (utf8_decode_char c bc _ fuel Hc).
  rewrite (IH r fuel eq_refl) by lia. done.
Qed.

Lemma utf8_decode_encode (s : pystr) (bs : list byte) :
  utf8_encode s = Some bs -> utf8_decode bs = Some s.
Proof. intros H. unfold utf8_decode. by apply utf8_decode_N_encode. Qed.

Lemma utf8_encode_app (a b : pystr) :
  utf8_encode (a ++ b)
  = match utf8_encode a, utf8_encode b with
    | Some x, Some y => Some (x ++ y)
    | _, _ => None
    end.
Proof.
  induction a as [|c a IH]; simpl.
  - by destruct (utf8_encode b).
  - rewrite IH. destruct (utf8_encode_char c) as [bc|]; [|done].
    destruct (utf8_encode a) as [x|]; [|done].
    destruct (utf8_encode b) as [y|]; [|done]. by rewrite app_assoc.
Qed.

(** A text without a carriage return is read as it is. *)
Lemma universal_newlines_id (s : pystr) :
  carriage_return ∉ s -> universal_newlines s = s.
Proof.
  induction s as [|c s IH]; [done|]. intros Hcr.
  apply not_elem_of_cons in Hcr as [Hc Hs]. simpl.
  destruct (N.eqb_spec c 13) as [->|_]; [done|]. by rewrite IH.
Qed.

(** ** Files a computation may change *)

Lemma touches_ret {S A} (wd : S -> World) (allowed : pystr -> Prop) (a : A) :
  Touches wd allowed (mret a).
Proof. by intros s p Hp. Qed.

Lemma touches_raise {S A} (wd : S -> World) (allowed : pystr -> Prop) (e : exn) :
  Touches wd allowed (raise e : M S A).
Proof. by intros s p Hp. Qed.

Lemma touches_bind {S A B} (wd : S -> World) (allowed : pystr -> Prop)
    (m : M S A) (k : A -> M S B) :
  Touches wd allowed m -> (forall a, Touches wd allowed (k a)) ->
  Touches wd allowed (m ≫= k).
Proof.
  intros Hm Hk s p Hp. unfold mbind, M_bind. specialize (Hm s p Hp).
  destruct (m s) as [[a|e] s1]; simpl in *; [|done].
  by rewrite (Hk a s1 p Hp).
Qed.

Lemma touches_try_except {S A} (wd : S -> World) (allowed : pystr -> Prop)
    (m : M S A) (h : exn -> M S A) :
  Touches wd allowed m -> (forall e, Touches wd allowed (h e)) ->
  Touches wd allowed (try_except m h).
Proof.
  intros Hm Hh s p Hp. unfold try_except. specialize (Hm s p Hp).
  destruct (m s) as [[a|e] s1]; simpl in *; [done|].
  by rewrite (Hh e s1 p Hp).
Qed.

Lemma touches_lift {A} (allowed : pystr -> Prop) (m : M World A) :
  Touches id allowed m -> Touches snd allowed (lift m).
Proof.
  intros Hm [memory w] p Hp. unfold lift. simpl. specialize (Hm w p Hp).
  by destruct (m w).
Qed.

Lemma touches_with_memory {A : Type} (allowed : pystr -> Prop)
    (memory : gmap pystr pystr) (m : M MemState A) :
  Touches snd allowed m -> Touches id allowed (with_memory memory m).
Proof.
  intros Hm w p Hp. unfold with_memory. specialize (Hm (memory, w) p Hp).
  by destruct (m (memory, w)) as [[a|e] [memory' w']].
Qed.

Lemma touches_for_each {S A B} (wd : S -> World) (allowed : pystr -> Prop)
    (body : A -> M S B) (l : list A) :
  (forall x, Touches wd allowed (body x)) -> Touches wd allowed (for_each body l).
Proof.
  intros Hbody. induction l as [|x l IH]; simpl; [apply touches_ret|].
  apply touches_bind; [done|]. intros y.
  apply touches_bind; [done|]. intros ys. apply touches_ret.
Qed.

(** A computation whose state of the outside is the one it had, after some
    events, changes no file. *)
Lemma touches_extend {A} (allowed : pystr -> Prop) (m : M World A) :
  (forall w, exists evs, snd (m w) = extend w evs) -> Touches id allowed m.
Proof. intros H w p Hp. by destruct (H w) as [evs ->]. Qed.

Lemma touches_log (allowed : pystr -> Prop) (lvl : Level) (msg : LogMsg) :
  Touches id allowed (log lvl msg).
Proof. by intros w p Hp. Qed.

Lemma touches_os_path_exists (allowed : pystr -> Prop) (path : pystr) :
  Touches id allowed (os_path_exists path).
Proof. by intros w p Hp. Qed.

Lemma touches_open_read (allowed : pystr -> Prop) (path : pystr) :
  Touches id allowed (open_read path).
Proof.
  intros w p Hp. unfold open_read. by destruct (fs w !! path) as [[data|]|].
Qed.

Lemma touches_f_read {S} (wd : S -> World) (allowed : pystr -> Prop)
    (data : list byte) :
  Touches wd allowed (f_read data).
Proof.
  unfold f_read. destruct (utf8_decode data);
    [apply touches_ret|apply touches_raise].
Qed.

Lemma touches_open_write (allowed : pystr -> Prop) (path : pystr) :
  allowed path -> Touches id allowed (open_write path).
Proof.
  intros Hpath w p Hp. unfold open_write.
  destruct (fs w !! path) as [[data|]|]; simpl; try done;
    apply lookup_insert_ne; by intros ->.
Qed.

Lemma touches_f_write (allowed : pystr -> Prop) (path text : pystr) :
  allowed path -> Touches id allowed (f_write path text).
Proof.
  intros Hpath w p Hp. unfold f_write.
  destruct (utf8_encode text), (fs w !! path) as [[data|]|]; simpl; try done.
  apply lookup_insert_ne. by intros ->.
Qed.

Lemma touches_memory_get (allowed : pystr -> Prop) (k : pystr) :
  Touches snd allowed (memory_get k).
Proof. by intros s p Hp. Qed.

Lemma touches_memory_set (allowed : pystr -> Prop) (k v : pystr) :
  Touches snd allowed (memory_set k v).
Proof. by intros s p Hp. Qed.

Lemma touches_lang_info {S} (wd : S -> World) (allowed : pystr -> Prop)
    (lang : pystr) :
  Touches wd allowed (lang_info lang).
Proof.
  unfold lang_info. destruct (LANG_MAP !! lang);
    [apply touches_ret|apply touches_raise].
Qed.

Create HintDb touches.

#[local] Hint Resolve touches_ret touches_raise touches_log touches_os_path_exists
  touches_open_read touches_f_read touches_open_write touches_f_write
  touches_memory_get touches_memory_set touches_lang_info : touches.

Ltac touches :=
  repeat first
    [ solve [auto with touches]
    | apply touches_bind; [|intros ?]
    | apply touches_try_except; [|intros ?]
    | apply touches_lift
    | apply touches_for_each; intros ?
    | apply touches_with_memory
    | progress cbv zeta
    | match goal with
      | |- Touches _ _ (if ?b then _ else _) => destruct b
      | |- Touches _ _ (match ?o with Some _ => _ | None => _ end) => destruct o
      | |- Touches _ _ (match ?o with Ok _ => _ | Raise _ => _ end) => destruct o
      | |- Touches _ _ (match ?e with JSONDecodeError => _ | _ => _ end) => destruct e
      | |- Touches _ _ (match ?l with [] => _ | _ :: _ => _ end) => destruct l
      | |- Touches _ _ (let '(_, _) := ?p in _) => destruct p
      end ].

(** ** The memory store, further *)

Section MemoryStoreFurther.

Context (env : Env).

Ltac run := unfold mbind, M_bind, mret, M_ret, try_except, raise, log,
  os_path_exists, open_read, f_read; simpl.

(** [load_memory] gives [loaded], changes no file and calls no provider. *)
Lemma load_memory_events (w : World) :
  exists evs,
    load_memory env w = (loaded env (fs w), extend w evs)
    /\ Forall (fun e => provider_of e = None) evs.
Proof.
  unfold load_memory, loaded. run.
  destruct (fs w !! TRANSLATION_MEMORY) as [[data|]|] eqn:Hfile; simpl.
  - rewrite Hfile. simpl. destruct (utf8_decode data) as [text|]; run.
    + destruct (json_loads env (universal_newlines text)); simpl;
        unfold emit; rewrite ?extend_extend;
        eexists; (split; [reflexivity|]); by repeat constructor.
    + unfold emit; rewrite ?extend_extend.
      eexists; (split; [reflexivity|]); by repeat constructor.
  - rewrite Hfile. simpl. unfold emit; rewrite ?extend_extend.
    eexists; (split; [reflexivity|]); by repeat constructor.
  - eexists; (split; [reflexivity|]); by repeat constructor.
Qed.

(** X9. [load_memory] never changes a file and makes no request but the
    test and the reading of the memory file.  It gives an empty memory when
    the file is missing or its text is not JSON, and the parsed memory
    otherwise; it raises [OSError] when the path of the memory is a
    directory and [UnicodeDecodeError] when the content is not UTF-8. *)
Theorem load_memory_loaded (w : World) :
  fst (load_memory env w) = loaded env (fs w)
  /\ fs (snd (load_memory env w)) = fs w
  /\ Forall (fun e => provider_of e = None)
       (events_since (length (trace w)) (snd (load_memory env w))).
Proof.
  destruct (load_memory_events w) as (evs & -> & Hevs). simpl.
  by rewrite events_since_extend.
Qed.

(** The chunks written to an open file are appended to it, encoded. *)
Lemma write_chunks (path : pystr) (chunks : list pystr) (data bytes : list byte)
    (w : World) :
  fs w !! path = Some (File data) ->
  utf8_encode (concat chunks) = Some bytes ->
  exists ys,
    for_each (f_write path) chunks w
    = (Ok ys, set_fs (<[path := File (data ++ bytes)]> (fs w)) w).
Proof.
  revert data bytes w. induction chunks as [|chunk chunks IH];
    intros data bytes w Hfile Henc.
  { injection Henc as <-. exists []. simpl. unfold mret, M_ret.
    rewrite app_nil_r, insert_id by done. by destruct w. }
  simpl in Henc. rewrite utf8_encode_app in Henc.
  destruct (utf8_encode chunk) as [b1|] eqn:H1; [|done].
  destruct (utf8_encode (concat chunks)) as [b2|] eqn:H2; [|done].
  injection Henc as <-. simpl. unfold mbind, M_bind, mret, M_ret.
  unfold f_write at 1. rewrite H1, Hfile.
  destruct (IH (data ++ b1) b2
              (set_fs (<[path := File (data ++ b1)]> (fs w)) w)) as [ys Hys];
    [apply lookup_insert_eq|done|].
  rewrite Hys. exists (tt :: ys). simpl. by rewrite insert_insert_eq, app_assoc.
Qed.

(** [save_memory] changes no file but the memory file. *)
Lemma touches_save_memory (memory : gmap pystr pystr) :
  Touches id (fun p => p = TRANSLATION_MEMORY) (save_memory env memory).
Proof. unfold save_memory. touches. Qed.

(** X10. [save_memory] never raises, changes no file but the memory file and
    makes no request but the opening of that file; when the path of the
    memory is not a directory and the chunks of the JSON text can be
    encoded, the memory file holds afterwards the UTF-8 encoding of the
    whole text, whatever it held before. *)
Theorem save_memory_writes_the_memory_file
    (memory : gmap pystr pystr) (w : World) :
  fst (save_memory env memory w) = Ok tt
  /\ (forall p, p <> TRANSLATION_MEMORY ->
        fs (snd (save_memory env memory w)) !! p = fs w !! p)
  /\ history (snd (save_memory env memory w))
     = history w ++ [FsOpenWrite TRANSLATION_MEMORY]
  /\ (fs w !! TRANSLATION_MEMORY <> Some Dir ->
      forall bytes,
        utf8_encode (concat (json_iterencode env memory)) = Some bytes ->
        fs (snd (save_memory env memory w)) !! TRANSLATION_MEMORY
        = Some (File bytes)).
Proof.
  split; [|split; [|split]].
  - by destruct (save_memory_spec env memory w) as (w' & -> & _).
  - intros p Hp. by apply (touches_save_memory memory w p).
  - destruct (save_memory_spec env memory w) as (w' & -> & [Htr|[e Htr]]);
      unfold history; simpl; rewrite Htr; unfold requests;
      rewrite filter_app; simpl; done.
  - intros Hdir bytes Henc. unfold save_memory, try_except, mbind, M_bind,
      mret, M_ret, open_write.
    assert (Hopen : forall w1,
      fs w1 !! TRANSLATION_MEMORY = Some (File []) ->
      fs (snd (let (r, s') :=
                 let (r, s') :=
                   for_each (f_write TRANSLATION_MEMORY) (json_iterencode env memory) w1 in
                 match r with
                 | Ok _ => (Ok (), s')
                 | Raise e => (Raise e, s')
                 end in
               match r with
               | Ok a => (Ok a, s')
               | Raise e => (log ERROR (MsgFailedToSaveMemory e) ≫= λ _, mret ()) s'
               end)) !! TRANSLATION_MEMORY = Some (File bytes)).
    { intros w1 Hw1.
      destruct (write_chunks TRANSLATION_MEMORY _ [] bytes w1 Hw1 Henc) as [ys ->].
      simpl. apply lookup_insert_eq. }
    destruct (fs w !! TRANSLATION_MEMORY) as [[data|]|] eqn:Hfile; [|done|];
      apply Hopen; simpl; apply lookup_insert_eq.
Qed.


End MemoryStoreFurther.

(** ** The file pipeline, further *)

Section FilePipelineFurther.

Context (env : Env).

Ltac run := unfold mbind, M_bind, mret, M_ret, try_except, raise, log,
  os_path_exists, open_read, f_read; simpl.

(** [translate_html_file] in its stages. *)
Lemma translate_html_file_stages (file_path target_lang : pystr) (force : bool) :
  translate_html_file env file_path target_lang force
  = (memory ← load_memory env;
     present ← os_path_exists (output_path_of file_path target_lang);
     if (present : bool) && negb force
     then log INFO (MsgOutputExists (output_path_of file_path target_lang));;
          mret false
     else
       parsed ← read_and_parse env file_path;
       match parsed with
       | None => mret false
       | Some soup =>
           walked ← with_memory memory (walk env file_path target_lang soup);
           let '((soup', translation_count), memory') := walked in
           write_and_save env (output_path_of file_path target_lang) soup'
             translation_count memory'
       end).
Proof. reflexivity. Qed.

(** The reading of the input never raises, changes no file and calls no
    provider. *)
Lemma read_and_parse_spec (file_path : pystr) (w : World) :
  exists evs,
    read_and_parse env file_path w
    = (Ok (parsed_input env (fs w) file_path), extend w evs)
    /\ Forall (fun e => provider_of e = None) evs.
Proof.
  unfold read_and_parse, parsed_input. run.
  destruct (fs w !! file_path) as [[data|]|]; simpl;
    try (unfold emit; rewrite ?extend_extend; eexists;
         (split; [reflexivity|]); by repeat constructor).
  destruct (utf8_decode data) as [text|]; run;
    try (unfold emit; rewrite ?extend_extend; eexists;
         (split; [reflexivity|]); by repeat constructor).
  destruct (decide (strip (universal_newlines text) = [])); run;
    try (unfold emit; rewrite ?extend_extend; eexists;
         (split; [reflexivity|]); by repeat constructor).
  destruct (BeautifulSoup env (universal_newlines text)); run;
    unfold emit; rewrite ?extend_extend; eexists;
    (split; [reflexivity|]); by repeat constructor.
Qed.

(** Before the walk [translate_html_file] changes no file and calls no
    provider; it stops there when the output exists and [force] is unset,
    and when the input gives no document. *)
Lemma translate_html_file_stops (file_path target_lang : pystr) (force : bool)
    (w : World) :
  (is_Some (fs w !! output_path_of file_path target_lang) /\ force = false)
  \/ parsed_input env (fs w) file_path = None ->
  exists evs,
    translate_html_file env file_path target_lang force w
    = (stopped env (fs w), extend w evs)
    /\ Forall (fun e => provider_of e = None) evs.
Proof.
  intros Hstop. rewrite translate_html_file_stages. unfold stopped.
  unfold mbind at 1; unfold M_bind at 1.
  destruct (load_memory_events env w) as (evs0 & -> & Hevs0).
  destruct (loaded env (fs w)) as [memory|e]; [|by exists evs0].
  unfold mbind at 1; unfold M_bind at 1. unfold os_path_exists at 1.
  change (fs (extend w evs0)) with (fs w). unfold emit. rewrite extend_extend.
  destruct (bool_decide (is_Some (fs w !! output_path_of file_path target_lang))
            && negb force) eqn:Hskip.
  { run. unfold emit. rewrite extend_extend. eexists. split; [reflexivity|].
    repeat (apply Forall_app; split); by repeat constructor. }
  destruct Hstop as [[Hout ->]|Hnone].
  { rewrite bool_decide_eq_true_2 in Hskip by done. done. }
  unfold mbind at 1; unfold M_bind at 1.
  destruct (read_and_parse_spec file_path
              (extend w (evs0 ++ [FsExists (output_path_of file_path target_lang)])))
    as (evs1 & -> & Hevs1).
  change (fs (extend w ?l)) with (fs w). rewrite Hnone.
  unfold mret, M_ret. rewrite extend_extend.
  eexists. split; [reflexivity|].
  repeat (apply Forall_app; split); try done; by repeat constructor.
Qed.

(** X12. Skip-existing: when the output path exists and [force] is unset,
    [translate_html_file] returns [False] (or raises what [load_memory]
    raises), changes no file, so the existing output keeps its bytes, and
    calls no provider. *)
Theorem translate_html_file_skips_existing
    (file_path target_lang : pystr) (w : World) :
  is_Some (fs w !! output_path_of file_path target_lang) ->
  fst (translate_html_file env file_path target_lang false w) = stopped env (fs w)
  /\ fs (snd (translate_html_file env file_path target_lang false w)) = fs w
  /\ Forall (fun e => provider_of e = None)
       (events_since (length (trace w))
          (snd (translate_html_file env file_path target_lang false w))).
Proof.
  intros Hout.
  destruct (translate_html_file_stops file_path target_lang false w)
    as (evs & -> & Hevs); [by left|].
  simpl. by rewrite events_since_extend.
Qed.

(** X13. An input that is missing, a directory, not UTF-8 or blank once
    trimmed, or that the parser rejects, is not fatal: [translate_html_file]
    returns [False] (or raises what [load_memory] raises), changes no file
    and calls no provider. *)
Theorem translate_html_file_skips_unreadable
    (file_path target_lang : pystr) (force : bool) (w : World) :
  parsed_input env (fs w) file_path = None ->
  fst (translate_html_file env file_path target_lang force w) = stopped env (fs w)
  /\ fs (snd (translate_html_file env file_path target_lang force w)) = fs w
  /\ Forall (fun e => provider_of e = None)
       (events_since (length (trace w))
          (snd (translate_html_file env file_path target_lang force w))).
Proof.
  intros Hnone.
  destruct (translate_html_file_stops file_path target_lang force w)
    as (evs & -> & Hevs); [by right|].
  simpl. by rewrite events_since_extend.
Qed.

End FilePipelineFurther.

(** ** The document walker, further *)

Section WalkerFurther.

Context (env : Env).

Ltac run := unfold mbind, M_bind, mret, M_ret, try_except, raise, log, lift; simpl.

Lemma touches_apply_translation (allowed : pystr -> Prop) (text lang : pystr) :
  Touches snd allowed (apply_translation env text lang).
Proof.
  intros [memory w] p Hp.
  by destruct (apply_translation_cases env text lang memory w)
    as (r & memory' & evs & -> & _).
Qed.

#[local] Hint Resolve touches_apply_translation : touches.

(** The walk changes no file. *)
Lemma touches_walk (allowed : pystr -> Prop) (file lang : pystr) (soup : Soup) :
  Touches snd allowed (walk env file lang soup).
Proof.
  unfold walk, inject_code, append_all, process_tag, process_string,
    translate_attr, localize_link. touches.
Qed.

Lemma translate_attr_shape (target_lang attr : pystr) (info : LangInfo)
    (tag : Tag) (s : MemState) :
  LANG_MAP !! target_lang = Some info ->
  exists tag' s',
    translate_attr env target_lang attr tag s = (Ok tag', s')
    /\ tag_name tag' = tag_name tag.
Proof.
  intros Hlang. unfold translate_attr.
  destruct (attrs tag !! attr) as [[|c value]|]; try by eexists _, _.
  destruct s as [memory w].
  destruct (apply_translation_step env (c :: value) target_lang info memory w Hlang)
    as (out & memory' & evs & Hrun & _).
  run. rewrite Hrun. by eexists _, _.
Qed.

(** The body of the loop over the links and images keeps the name of the
    tag, and leaves a tag that is neither a link nor an image as it is. *)
Lemma process_tag_shape (target_lang : pystr) (info : LangInfo) (tag : Tag)
    (s : MemState) :
  LANG_MAP !! target_lang = Some info ->
  exists tag' s',
    process_tag env target_lang tag s = (Ok tag', s')
    /\ tag_name tag' = tag_name tag
    /\ (tag_name tag <> str "a" -> tag_name tag <> str "img" -> tag' = tag).
Proof.
  intros Hlang. destruct s as [memory w]. unfold process_tag. run.
  destruct (localize_link_spec target_lang tag w)
    as (tag1 & w1 & -> & Hname & Hother & _). simpl.
  destruct (decide (tag_name tag1 = str "img")) as [Himg|Hnot].
  - destruct (translate_attr_shape target_lang (str "alt") info tag1 (memory, w1) Hlang)
      as (tag2 & s2 & -> & Hname2). simpl.
    destruct (translate_attr_shape target_lang (str "title") info tag2 s2 Hlang)
      as (tag3 & s3 & -> & Hname3).
    eexists _, _. split; [reflexivity|]. split; [congruence|].
    intros _ Hni. congruence.
  - eexists _, _. split; [reflexivity|]. split; [done|].
    intros Ha _. by apply Hother.
Qed.

(** The body of the loop over the strings keeps the parent of the string,
    and leaves a string of a script or a style, or a blank string, as it is
    and does not count it. *)
Lemma process_string_shape (target_lang : pystr) (info : LangInfo)
    (element : TextNode) (s : MemState) :
  LANG_MAP !! target_lang = Some info ->
  exists r s',
    process_string env target_lang element s = (Ok r, s')
    /\ parent_name (fst r) = parent_name element
    /\ (parent_name element = str "script" \/ parent_name element = str "style"
        \/ strip (content element) = [] ->
        r = (element, false) /\ s' = s).
Proof.
  intros Hlang. unfold process_string.
  destruct (decide (parent_name element = str "script")) as [Hs|Hs];
    [by eexists _, _|].
  destruct (decide (parent_name element = str "style")) as [Ht|Ht];
    [by eexists _, _|].
  destruct (decide (strip (content element) = [])) as [He|He];
    [by eexists _, _|].
  destruct s as [memory w].
  destruct (apply_translation_step env (strip (content element)) target_lang info
              memory w Hlang) as (out & memory' & evs & Hrun & _).
  run. rewrite Hrun.
  destruct (decide (out = strip (content element))); eexists _, _;
    (split; [reflexivity|]); (split; [done|]); intros [?|[?|?]]; done.
Qed.

(** The walk of a document, for a supported language. *)
Lemma walk_shape_lemma
    (file_path target_lang : pystr) (info : LangInfo) (soup : Soup) (s : MemState) :
  LANG_MAP !! target_lang = Some info ->
  exists soup' translation_count s',
    walk env file_path target_lang soup s = (Ok (soup', translation_count), s')
    /\ html_attrs soup' = (fun a => <[str "lang" := target_lang]> a) <$> html_attrs soup
    /\ Forall2 (fun tag tag' =>
                  tag_name tag' = tag_name tag
                  /\ (tag_name tag <> str "a" -> tag_name tag <> str "img" ->
                      tag' = tag))
         (link_img_tags soup) (link_img_tags soup')
    /\ Forall2 (fun element element' =>
                  parent_name element' = parent_name element
                  /\ (parent_name element = str "script"
                      \/ parent_name element = str "style"
                      \/ strip (content element) = [] ->
                      element' = element))
         (strings soup) (strings soup')
    /\ head_appended soup' = (fun c => c ++ INJECT_HEAD) <$> head_appended soup
    /\ body_appended soup' = (fun c => c ++ INJECT_BODY) <$> body_appended soup
    /\ (translation_count <= length (strings soup))%nat.
Proof.
  intros Hlang. unfold walk.
  set (first_step := match html_attrs soup with
                     | Some a => mret (Some (<[str "lang" := target_lang]> a))
                     | None => lift (log WARNING (MsgNoHtmlTag file_path));; mret None
                     end : M MemState _).
  assert (Hfirst : exists s1,
    first_step s
    = (Ok ((fun a => <[str "lang" := target_lang]> a) <$> html_attrs soup), s1)).
  { unfold first_step. destruct (html_attrs soup); by eexists. }
  destruct Hfirst as (s1 & Hfirst).
  destruct (for_each_total (process_tag env target_lang)
              (fun tag tag' =>
                 tag_name tag' = tag_name tag
                 /\ (tag_name tag <> str "a" -> tag_name tag <> str "img" ->
                     tag' = tag))
              (link_img_tags soup)) with (s := s1)
    as (tags' & s2 & Htags & Hshape).
  { intros tag s0. by apply (process_tag_shape target_lang info). }
  destruct (for_each_total (process_string env target_lang)
              (fun element r =>
                 parent_name (fst r) = parent_name element
                 /\ (parent_name element = str "script"
                     \/ parent_name element = str "style"
                     \/ strip (content element) = [] ->
                     fst r = element))
              (strings soup)) with (s := s2) as (walked & s3 & Hstrings & Hwalked).
  { intros element s0.
    destruct (process_string_shape target_lang info element s0 Hlang)
      as (r & s' & Hrun & Hparent & Hsame).
    exists r, s'. split; [done|]. split; [done|].
    intros H. by destruct (Hsame H) as [-> _]. }
  unfold mbind, M_bind at 1. rewrite Hfirst.
  unfold mbind, M_bind at 1. rewrite Htags.
  unfold mbind, M_bind at 1. rewrite Hstrings.
  unfold inject_code. run.
  destruct (append_all_total MsgInjectedHead (head_appended soup) INJECT_HEAD s3.2)
    as (w4 & ->).
  destruct (append_all_total MsgInjectedBody (body_appended soup) INJECT_BODY w4)
    as (w5 & ->).
  eexists _, _, _. split; [reflexivity|]. simpl.
  split; [done|]. split; [done|]. split; [|split; [|split]].
  - by apply Forall2_fmap_r.
  - by destruct (head_appended soup).
  - by destruct (body_appended soup).
  - rewrite (Forall2_length _ _ _ Hwalked). apply length_filter.
Qed.

(** X14. For a supported language the walk of a document returns; it sets
    the [lang] attribute of the root when there is one, keeps the number and
    the names of the tags and leaves the tags that are neither links nor
    images as they are, keeps the number and the parents of the strings and
    leaves the strings of scripts and styles and the blank strings as they
    are, appends [INJECT_HEAD] and [INJECT_BODY] to the head and the body
    that exist, counts at most one translation per string, and changes no
    file. *)
Theorem walk_keeps_the_shape
    (file_path target_lang : pystr) (info : LangInfo) (soup : Soup)
    (memory : gmap pystr pystr) (w : World) :
  LANG_MAP !! target_lang = Some info ->
  exists soup' translation_count memory' w',
    walk env file_path target_lang soup (memory, w)
    = (Ok (soup', translation_count), (memory', w'))
    /\ fs w' = fs w
    /\ html_attrs soup' = (fun a => <[str "lang" := target_lang]> a) <$> html_attrs soup
    /\ Forall2 (fun tag tag' =>
                  tag_name tag' = tag_name tag
                  /\ (tag_name tag <> str "a" -> tag_name tag <> str "img" ->
                      tag' = tag))
         (link_img_tags soup) (link_img_tags soup')
    /\ Forall2 (fun element element' =>
                  parent_name element' = parent_name element
                  /\ (parent_name element = str "script"
                      \/ parent_name element = str "style"
                      \/ strip (content element) = [] ->
                      element' = element))
         (strings soup) (strings soup')
    /\ head_appended soup' = (fun c => c ++ INJECT_HEAD) <$> head_appended soup
    /\ body_appended soup' = (fun c => c ++ INJECT_BODY) <$> body_appended soup
    /\ (translation_count <= length (strings soup))%nat.
Proof.
  intros Hlang.
  destruct (walk_shape_lemma file_path target_lang info soup (memory, w) Hlang)
    as (soup' & count & [memory' w'] & Hrun & Hrest).
  exists soup', count, memory', w'. split; [done|]. split; [|done].
  apply map_eq. intros p.
  pose proof (touches_walk (fun _ => False) file_path target_lang soup (memory, w) p)
    as Hp.
  rewrite Hrun in Hp. apply Hp. tauto.
Qed.

End WalkerFurther.

(** ** What a computation raises *)

Lemma raises_total {S A} (P : exn -> Prop) (m : M S A) :
  (forall s, exists a s', m s = (Ok a, s')) -> Raises P m.
Proof. intros H s e. by destruct (H s) as (a & s' & ->). Qed.

Lemma raises_ret {S A} (P : exn -> Prop) (a : A) : Raises P (mret a : M S A).
Proof. by intros s e. Qed.

Lemma raises_bind {S A B} (P : exn -> Prop) (m : M S A) (k : A -> M S B) :
  Raises P m -> (forall a, Raises P (k a)) -> Raises P (m ≫= k).
Proof.
  intros Hm Hk s e. unfold mbind, M_bind. specialize (Hm s).
  destruct (m s) as [[a|e'] s1]; simpl in *; [apply Hk|].
  intros [= <-]. by apply Hm.
Qed.

Lemma raises_lift {A} (P : exn -> Prop) (m : M World A) :
  Raises P m -> Raises P (lift m).
Proof.
  intros Hm [memory w] e. unfold lift. simpl. specialize (Hm w e).
  by destruct (m w).
Qed.

Lemma raises_for_each {S A B} (P : exn -> Prop) (body : A -> M S B) (l : list A) :
  (forall x, Raises P (body x)) -> Raises P (for_each body l).
Proof.
  intros Hbody. induction l as [|x l IH]; simpl; [apply raises_ret|].
  apply raises_bind; [done|]. intros y.
  apply raises_bind; [done|]. intros ys. apply raises_ret.
Qed.

Lemma raises_log (P : exn -> Prop) (lvl : Level) (msg : LogMsg) :
  Raises P (log lvl msg).
Proof. by intros w e. Qed.

Create HintDb raises.

#[local] Hint Resolve raises_ret raises_log : raises.

Ltac raises :=
  repeat first
    [ solve [auto with raises]
    | apply raises_bind; [|intros ?]
    | apply raises_lift
    | apply raises_for_each; intros ?
    | progress cbv zeta
    | match goal with
      | |- Raises _ (if ?b then _ else _) => destruct b
      | |- Raises _ (match ?o with Some _ => _ | None => _ end) => destruct o
      | |- Raises _ (match ?l with [] => _ | _ :: _ => _ end) => destruct l
      end ].

(** ** The file pipeline as a whole *)

Section FilePipelineWhole.

Context (env : Env).

Ltac run := unfold mbind, M_bind, mret, M_ret, try_except, raise, log; simpl.

Lemma raises_apply_translation (text lang : pystr) :
  Raises (fun e => e = KeyError /\ LANG_MAP !! lang = None)
    (apply_translation env text lang).
Proof.
  intros [memory w] e.
  destruct (apply_translation_cases env text lang memory w)
    as (r & memory' & evs & -> & Hcases). simpl. intros ->.
  destruct Hcases as [([= ->] & Hlang & _)|[(? & _)|[(? & ? & _)|(? & ? & _)]]];
    done.
Qed.

Lemma raises_localize_link (P : exn -> Prop) (lang : pystr) (tag : Tag) :
  Raises P (localize_link lang tag).
Proof.
  apply raises_total. intros w.
  destruct (localize_link_spec lang tag w) as (tag' & w' & -> & _).
  by eexists _, _.
Qed.

Lemma raises_append_all (P : exn -> Prop) (msg : pystr -> LogMsg)
    (section : option (list pystr)) (tags : list pystr) :
  Raises P (append_all msg section tags).
Proof.
  apply raises_total. intros w.
  destruct (append_all_total msg section tags w) as (w' & ->). by eexists _, _.
Qed.

#[local] Hint Resolve raises_apply_translation raises_localize_link
  raises_append_all : raises.

(** The walk raises only [KeyError], and only for an unsupported language. *)
Lemma raises_walk (file lang : pystr) (soup : Soup) :
  Raises (fun e => e = KeyError /\ LANG_MAP !! lang = None)
    (walk env file lang soup).
Proof.
  unfold walk, inject_code, process_tag, process_string, translate_attr. raises.
Qed.

Lemma touches_weaken {S A} (wd : S -> World) (P Q : pystr -> Prop) (m : M S A) :
  Touches wd P m -> (forall p, P p -> Q p) -> Touches wd Q m.
Proof. intros Hm HPQ s p Hp. apply Hm. intros HP. by apply Hp, HPQ. Qed.

Lemma touches_load_memory (allowed : pystr -> Prop) :
  Touches id allowed (load_memory env).
Proof.
  intros w p Hp. by destruct (load_memory_events env w) as (evs & -> & _).
Qed.

Lemma touches_read_and_parse (allowed : pystr -> Prop) (file : pystr) :
  Touches id allowed (read_and_parse env file).
Proof.
  intros w p Hp. by destruct (read_and_parse_spec env file w) as (evs & -> & _).
Qed.

Lemma touches_write_and_save (out : pystr) (soup' : Soup) (n : nat)
    (memory' : gmap pystr pystr) :
  Touches id (fun p => p = out \/ p = TRANSLATION_MEMORY)
    (write_and_save env out soup' n memory').
Proof.
  pose proof (touches_weaken id _ (fun p => p = out \/ p = TRANSLATION_MEMORY)
                _ (touches_save_memory env memory')) as Hsave.
  unfold write_and_save. touches.
  all: try (apply Hsave; tauto).
  all: try (apply touches_open_write; tauto).
  all: try (apply touches_f_write; tauto).
Qed.

(** The [try] that writes the output never raises. *)
Lemma write_and_save_returns (out : pystr) (soup' : Soup) (n : nat)
    (memory' : gmap pystr pystr) (w : World) :
  exists b w', write_and_save env out soup' n memory' w = (Ok b, w').
Proof.
  unfold write_and_save, try_except.
  match goal with |- context [match ?m w with _ => _ end] => destruct (m w) as [[b|e] w1] end;
    [by eexists _, _|].
  run. by eexists _, _.
Qed.

(** [translate_html_file] changes no file but its output and the memory
    file. *)
Lemma touches_translate_html_file (file_path target_lang : pystr) (force : bool) :
  Touches id (fun p => p = output_path_of file_path target_lang
                       \/ p = TRANSLATION_MEMORY)
    (translate_html_file env file_path target_lang force).
Proof.
  rewrite translate_html_file_stages.
  pose proof touches_load_memory. pose proof touches_read_and_parse.
  pose proof touches_write_and_save. pose proof (touches_walk env).
  touches.
Qed.

(** X15. [translate_html_file] changes no file but its output and the memory
    file. *)
Theorem translate_html_file_touches_two_files
    (file_path target_lang : pystr) (force : bool) (w : World) (p : pystr) :
  p <> output_path_of file_path target_lang ->
  p <> TRANSLATION_MEMORY ->
  fs (snd (translate_html_file env file_path target_lang force w)) !! p = fs w !! p.
Proof.
  intros Hout Hmem.
  apply (touches_translate_html_file file_path target_lang force w p). tauto.
Qed.


End FilePipelineWhole.

(** ** The output file *)

Section OutputFile.

Context (env : Env).

(** The [try] that writes the output: [True] when the file holds the whole
    encoded text, [False] when it was left as it was or emptied. *)
Lemma write_and_save_output (out : pystr) (soup' : Soup) (n : nat)
    (memory' : gmap pystr pystr) (w : World) :
  out <> TRANSLATION_MEMORY ->
  exists b w',
    write_and_save env out soup' n memory' w = (Ok b, w')
    /\ (b = true ->
        exists text bytes,
          prettify env soup' = Ok text /\ utf8_encode text = Some bytes
          /\ fs w' !! out = Some (File bytes))
    /\ (b = false ->
        fs w' !! out = fs w !! out \/ fs w' !! out = Some (File [])).
Proof.
  intros Hne. unfold write_and_save, try_except.
  unfold mbind at 1; unfold M_bind at 1. unfold open_write at 1.
  assert (Hfail : forall e w1,
    fs w1 !! out = fs w !! out \/ fs w1 !! out = Some (File []) ->
    exists b w',
      (log ERROR (MsgFailedToSave out e);; mret false) w1 = (Ok b, w')
      /\ (b = true ->
          exists text bytes,
            prettify env soup' = Ok text /\ utf8_encode text = Some bytes
            /\ fs w' !! out = Some (File bytes))
      /\ (b = false ->
          fs w' !! out = fs w !! out \/ fs w' !! out = Some (File []))).
  { intros e w1 Hw1. eexists _, _. split; [reflexivity|]. split; [done|].
    intros _. exact Hw1. }
  assert (Hopen : forall w1 : World,
    fs w1 = <[out := File []]> (fs w) ->
    exists b w',
      match
        (text ← match prettify env soup' with
                | Ok t => mret t
                | Raise e => raise e
                end;
         f_write out text;;
         log INFO (MsgSaved out n);;
         save_memory env memory';;
         mret true) w1
      with
      | (Ok a, s') => (Ok a, s')
      | (Raise e, s') => (log ERROR (MsgFailedToSave out e);; mret false) s'
      end = (Ok b, w')
      /\ (b = true ->
          exists text bytes,
            prettify env soup' = Ok text /\ utf8_encode text = Some bytes
            /\ fs w' !! out = Some (File bytes))
      /\ (b = false ->
          fs w' !! out = fs w !! out \/ fs w' !! out = Some (File []))).
  { intros w1 Hw1.
    assert (Hempty : fs w1 !! out = Some (File [])).
    { rewrite Hw1. apply lookup_insert_eq. }
    unfold mbind at 1; unfold M_bind at 1.
    destruct (prettify env soup') as [text|e] eqn:Htext; [|apply Hfail; by right].
    unfold mret at 1, M_ret at 1.
    unfold mbind at 1; unfold M_bind at 1. unfold f_write at 1. rewrite Hempty.
    destruct (utf8_encode text) as [bytes|] eqn:Hbytes; [|apply Hfail; by right].
    unfold mbind at 1; unfold M_bind at 1. unfold log at 1.
    unfold mbind at 1; unfold M_bind at 1.
    match goal with |- context [save_memory env memory' ?w2] =>
      pose proof (touches_save_memory env memory' w2 out Hne) as Hkeeps;
      destruct (save_memory_spec env memory' w2) as (w3 & Hsave & _) end.
    rewrite Hsave in *. exists true, w3. split; [reflexivity|].
    split; [|done]. intros _. exists text, bytes. split; [done|]. split; [done|].
    simpl in Hkeeps. rewrite Hkeeps. apply lookup_insert_eq. }
  destruct (fs w !! out) as [[data|]|] eqn:Hout.
  - by apply Hopen.
  - apply Hfail. by left.
  - by apply Hopen.
Qed.


End OutputFile.

(** ** [str.replace] on a pattern that cannot overlap itself *)

Lemma occurs_spec (p s : pystr) :
  occurs p s = true <-> exists a b, s = a ++ p ++ b.
Proof.
  induction s as [|c s IH].
  - cbn [occurs]. rewrite orb_false_r, startswith_spec. split.
    + intros [b ->]. by exists [], b.
    + intros (a & b & H). symmetry in H. apply app_eq_nil in H as [-> H].
      apply app_eq_nil in H as [-> _]. done.
  - cbn [occurs]. rewrite orb_true_iff, startswith_spec, IH. split.
    + intros [[b ->]|(a & b & ->)]; [by exists [], b|by exists (c :: a), b].
    + intros (a & b & H). destruct a as [|c' a].
      * left. exists b. exact H.
      * right. injection H as -> ->. by exists a, b.
Qed.

(** Without an occurrence of [old], [str.replace] returns the string. *)
Lemma replace_from_no_occurrence (old new s : pystr) :
  occurs old s = false -> replace_from old new 0 s = s.
Proof.
  induction s as [|c s IH]; [done|]. cbn [occurs replace_from].
  intros H. apply orb_false_iff in H as [-> H]. by rewrite IH.
Qed.

Lemma replace_from_skip_app (old new s b : pystr) :
  replace_from old new (length s) (s ++ b) = replace_from old new 0 b.
Proof. induction s as [|c s IH]; [by destruct b|]. simpl. exact IH. Qed.

(** A pattern whose first character does not come back in it cannot begin
    inside an occurrence of itself. *)
Lemma startswith_app_no_overlap (c0 : N) (rest a b : pystr) :
  c0 ∉ rest ->
  startswith (a ++ (c0 :: rest) ++ b) (c0 :: rest) = true ->
  a = [] \/ startswith a (c0 :: rest) = true.
Proof.
  intros Hc0 Hstart. destruct a as [|c a]; [by left|]. right.
  apply startswith_spec in Hstart. apply startswith_spec.
  destruct Hstart as [t Ht].
  apply app_eq_inv in Ht as [(k & Hk & _)|(k & Hk & Hrest)].
  - by exists k.
  - destruct k as [|c1 k]; [exists []; by rewrite Hk, !app_nil_r|].
    exfalso. apply Hc0. simpl in Hrest. injection Hrest as <- _.
    injection Hk as _ ->. apply elem_of_app. right. left.
Qed.

(** [str.replace] works on the parts between the occurrences. *)
Lemma replace_from_app (c0 : N) (rest new a b : pystr) (skip : nat) :
  c0 ∉ rest ->
  (skip <= length a)%nat ->
  replace_from (c0 :: rest) new skip (a ++ (c0 :: rest) ++ b)
  = replace_from (c0 :: rest) new skip a ++ new
      ++ replace_from (c0 :: rest) new 0 b.
Proof.
  intros Hc0. revert skip. induction a as [|c a IH]; intros skip Hskip.
  - assert (skip = 0%nat) as -> by (simpl in Hskip; lia).
    cbn [app replace_from].
    assert (Hself : startswith (c0 :: rest ++ b) (c0 :: rest) = true).
    { apply startswith_spec. by exists b. }
    rewrite Hself. cbn [length Nat.pred]. by rewrite replace_from_skip_app.
  - destruct skip as [|k].
    + change ((c :: a) ++ (c0 :: rest) ++ b) with (c :: (a ++ (c0 :: rest) ++ b)).
      cbn [replace_from].
      change (c :: (a ++ (c0 :: rest) ++ b)) with ((c :: a) ++ (c0 :: rest) ++ b).
      destruct (startswith (c :: a) (c0 :: rest)) eqn:Hhere.
      * assert (Hthere : startswith ((c :: a) ++ (c0 :: rest) ++ b) (c0 :: rest)
                         = true).
        { apply startswith_spec. apply startswith_spec in Hhere.
          by apply prefix_app_r. }
        rewrite Hthere. rewrite IH, <- app_assoc; [done|].
        apply startswith_spec in Hhere. apply prefix_length in Hhere.
        simpl in *. lia.
      * destruct (startswith ((c :: a) ++ (c0 :: rest) ++ b) (c0 :: rest))
          eqn:Hthere.
        { apply startswith_app_no_overlap in Hthere as [?|?]; [done|congruence|done]. }
        rewrite IH by lia. done.
    + change ((c :: a) ++ (c0 :: rest) ++ b) with (c :: (a ++ (c0 :: rest) ++ b)).
      cbn [replace_from]. apply IH. simpl in Hskip. lia.
Qed.

(** X18. The output path is computed on the parts of the path that [.html]
    separates: every [.html] becomes [-<lang>.html] and what stands between
    two of them is kept. *)
Theorem output_path_of_app (a b target_lang : pystr) :
  output_path_of (a ++ dot_html ++ b) target_lang
  = output_path_of a target_lang ++ lang_suffix target_lang
      ++ output_path_of b target_lang.
Proof.
  unfold output_path_of, replace.
  change dot_html with (46%N :: str "html").
  apply replace_from_app; [|simpl; lia].
  apply (bool_decide_unpack _). by vm_compute.
Qed.

(** X19. A path in which [.html] does not occur is its own output path. *)
Theorem output_path_of_without_dot_html (file_path target_lang : pystr) :
  occurs dot_html file_path = false ->
  output_path_of file_path target_lang = file_path.
Proof.
  intros Hnone. unfold output_path_of, replace.
  change dot_html with (46%N :: str "html") in *.
  by apply replace_from_no_occurrence.
Qed.

(** ** The link rewrite, twice *)

(** X20. The link rewrite is idempotent: on the tag it returns, for a
    supported language, it returns the same tag and logs nothing. *)
Theorem localize_link_idempotent
    (target_lang : pystr) (info : LangInfo) (tag : Tag) (w : World) :
  LANG_MAP !! target_lang = Some info ->
  exists tag' w',
    localize_link target_lang tag w = (Ok tag', w')
    /\ forall w2, localize_link target_lang tag' w2 = (Ok tag', w2).
Proof.
  intros _.
  assert (Hkeep : forall w2,
    localize_link target_lang tag w = (Ok tag, w) ->
    localize_link target_lang tag w2 = (Ok tag, w2)).
  { intros w2. unfold localize_link.
    destruct (decide (tag_name tag = str "a")); [|done].
    destruct (attrs tag !! str "href") as [[|c h]|]; [done| |done].
    destruct (endswith (c :: h) dot_html
              && negb (endswith (c :: h) (lang_suffix target_lang))); [|done].
    unfold mbind, M_bind, log, mret, M_ret, emit, extend. intros [= _ Htrace].
    apply (f_equal trace) in Htrace. simpl in Htrace.
    apply (f_equal length) in Htrace. rewrite length_app in Htrace.
    simpl in Htrace. lia. }
  destruct (decide (tag_name tag = str "a")) as [Ha|Hother].
  2: { exists tag, w. assert (H : localize_link target_lang tag w = (Ok tag, w)).
       { unfold localize_link. by rewrite decide_False. }
       split; [done|]. intros w2. by apply Hkeep. }
  destruct (attrs tag !! str "href") as [[|c h]|] eqn:Hhref.
  1, 3: exists tag, w;
    assert (H : localize_link target_lang tag w = (Ok tag, w))
      by (unfold localize_link; by rewrite decide_True, Hhref);
    (split; [done|]); intros w2; by apply Hkeep.
  destruct (endswith (c :: h) dot_html
            && negb (endswith (c :: h) (lang_suffix target_lang))) eqn:Hcond.
  2: { exists tag, w.
       assert (H : localize_link target_lang tag w = (Ok tag, w))
         by (unfold localize_link; by rewrite decide_True, Hhref, Hcond).
       split; [done|]. intros w2. by apply Hkeep. }
  apply andb_true_iff in Hcond as Hboth. destruct Hboth as [Hdot _].
  apply endswith_spec in Hdot. destruct Hdot as [stem Hstem].
  exists (set_attr (str "href")
            (re_sub_dot_html_end (lang_suffix target_lang) (c :: h)) tag),
    (emit (Log DEBUG (MsgUpdatedLink
                        (re_sub_dot_html_end (lang_suffix target_lang) (c :: h)))) w).
  split.
  { unfold localize_link. rewrite decide_True, Hhref, Hcond by done. reflexivity. }
  intros w2. unfold localize_link, set_attr. cbn [tag_name attrs].
  rewrite decide_True by done.
  rewrite lookup_insert_eq. rewrite Hstem, re_sub_dot_html_end_stem.
  assert (Hends : endswith (stem ++ lang_suffix target_lang)
                    (lang_suffix target_lang) = true) by apply endswith_app.
  destruct (stem ++ lang_suffix target_lang) as [|c' h'] eqn:Hnew.
  { by destruct stem. }
  by rewrite Hends, andb_false_r.
Qed.

(** ** The batch as a whole *)

Section BatchWhole.

Context (env : Env).

Lemma touches_translate_files (html_files : list pystr) (lang : pystr)
    (force : bool) (success_count : nat) :
  Touches id (fun p => p = TRANSLATION_MEMORY
                       \/ exists file, file ∈ html_files
                                       /\ p = output_path_of file lang)
    (translate_files env html_files lang force success_count).
Proof.
  revert success_count. induction html_files as [|file rest IH];
    intros success_count; [apply touches_ret|].
  simpl. apply touches_bind.
  - apply (touches_weaken _ _ _ _ (touches_translate_html_file env file lang force)).
    intros p [-> | ->]; [right|by left]. exists file. split; [left|done].
  - intros translated.
    apply (touches_weaken _ _ _ _ (IH _)).
    intros p [-> | (f & Hf & ->)]; [by left|right]. exists f. split; [by right|done].
Qed.

(** X21. The batch changes no file but the memory file and the output paths
    of the files it was given: a page that is not the output path of a
    listed file keeps its bytes. *)
Theorem process_each_file_touches_outputs
    (html_files : list pystr) (lang : pystr) (force : bool) (w : World)
    (p : pystr) :
  p <> TRANSLATION_MEMORY ->
  (forall file, file ∈ html_files -> p <> output_path_of file lang) ->
  fs (snd (process_each_file env html_files lang force w)) !! p = fs w !! p.
Proof.
  intros Hmem Hout.
  assert (H : Touches id (fun p => p = TRANSLATION_MEMORY
                                    \/ exists file, file ∈ html_files
                                                    /\ p = output_path_of file lang)
                (process_each_file env html_files lang force)).
  { unfold process_each_file. pose proof touches_translate_files. touches. }
  apply (H w p). intros [?|(file & Hfile & ->)]; [done|]. by apply (Hout file).
Qed.

End BatchWhole.

(** ** The memory under the walk *)

Section WalkMemory.

Context (env : Env).

Lemma extends_ret {A : Type} (a : A) : Extends (mret a).
Proof. by intros s. Qed.

Lemma extends_bind {A B : Type} (m : M MemState A) (k : A -> M MemState B) :
  Extends m -> (forall a, Extends (k a)) -> Extends (m ≫= k).
Proof.
  intros Hm Hk s. unfold mbind, M_bind. specialize (Hm s).
  destruct (m s) as [[a|e] s1]; simpl in *; [|done].
  by etrans; [|apply Hk].
Qed.

Lemma extends_lift {A : Type} (m : M World A) : Extends (lift m).
Proof. intros [memory w]. unfold lift. simpl. by destruct (m w). Qed.

Lemma extends_for_each {A B : Type} (body : A -> M MemState B) (l : list A) :
  (forall x, Extends (body x)) -> Extends (for_each body l).
Proof.
  intros Hbody. induction l as [|x l IH]; simpl; [apply extends_ret|].
  apply extends_bind; [done|]. intros y.
  apply extends_bind; [done|]. intros ys. apply extends_ret.
Qed.

Lemma extends_apply_translation (text lang : pystr) :
  Extends (apply_translation env text lang).
Proof.
  intros [memory w].
  destruct (apply_translation_cases env text lang memory w)
    as (r & memory' & evs & -> & Hcases). simpl.
  destruct Hcases as [(_ & _ & -> & _)|[(_ & _ & -> & _)|[(? & _ & _ & _ & -> & _)
                      |(? & _ & _ & Hnone & ->)]]]; try done.
  by apply insert_subseteq.
Qed.

(** X22. The walk of a document only adds to the memory: every entry of the
    memory it starts from is there with its value in the memory it leaves,
    which is the one [translate_html_file] saves. *)
Theorem walk_extends_the_memory
    (file_path target_lang : pystr) (soup : Soup)
    (memory : gmap pystr pystr) (w : World) :
  memory ⊆ fst (snd (walk env file_path target_lang soup (memory, w))).
Proof.
  assert (H : Extends (walk env file_path target_lang soup)).
  { unfold walk, inject_code, process_tag, process_string, translate_attr.
    pose proof extends_apply_translation.
    repeat first
      [ solve [auto using @extends_ret, @extends_lift]
      | apply extends_bind; [|intros ?]
      | apply extends_for_each; intros ?
      | progress cbv zeta
      | match goal with
        | |- Extends (if ?b then _ else _) => destruct b
        | |- Extends (match ?o with Some _ => _ | None => _ end) => destruct o
        | |- Extends (match ?l with [] => _ | _ :: _ => _ end) => destruct l
        end ]. }
  apply (H (memory, w)).
Qed.

End WalkMemory.

(** ** The further properties on concrete runs *)

Lemma apply_translation_returns_the_recorded_value_witness :
  fst (snd (apply_translation env_fallback (str " Hello ") (str "es") (∅, no_files)))
    !! strip (str " Hello ")
  = Some (str "ES:Hello").
Proof.
  apply (apply_translation_returns_the_recorded_value env_fallback
           (str " Hello ") (str "es") (str "ES:Hello") ∅
           (fst (snd (apply_translation env_fallback (str " Hello ") (str "es")
                        (∅, no_files))))
           no_files
           (snd (snd (apply_translation env_fallback (str " Hello ") (str "es")
                        (∅, no_files))))).
  - by vm_compute.
  - by vm_compute.
Defined.

Lemma apply_translation_keeps_keys_stripped_witness :
  stripped_keys
    (fst (snd (apply_translation env_fallback (str " Hello ") (str "es")
                 (∅, no_files)))).
Proof.
  apply (apply_translation_keeps_keys_stripped env_fallback
           (str " Hello ") (str "es") ∅ no_files).
  intros k [v Hv]. by rewrite lookup_empty in Hv.
Defined.

Lemma apply_translation_hit_ignores_language_witness :
  exists w'',
    apply_translation env_fallback (str "Hello") (str "fr")
      (fst (snd (apply_translation env_fallback (str "Hello") (str "es")
                   (∅, no_files))),
       snd (snd (apply_translation env_fallback (str "Hello") (str "es")
                   (∅, no_files))))
    = (Ok (str "ES:Hello"),
       (fst (snd (apply_translation env_fallback (str "Hello") (str "es")
                    (∅, no_files))), w''))
    /\ history w''
       = history (snd (snd (apply_translation env_fallback (str "Hello") (str "es")
                              (∅, no_files))))
    /\ fs w''
       = fs (snd (snd (apply_translation env_fallback (str "Hello") (str "es")
                         (∅, no_files)))).
Proof.
  apply (apply_translation_hit_ignores_language env_fallback
           (str "Hello") (str "es") (str "fr") (str "ES:Hello") ∅
           (fst (snd (apply_translation env_fallback (str "Hello") (str "es")
                        (∅, no_files))))
           no_files
           (snd (snd (apply_translation env_fallback (str "Hello") (str "es")
                        (∅, no_files))))).
  by vm_compute.
Defined.


Lemma translate_html_file_skips_existing_witness :
  fst (translate_html_file env_fallback (str "./a.html") (str "fr") false
         world_unwritable_output)
  = stopped env_fallback (fs world_unwritable_output)
  /\ fs (snd (translate_html_file env_fallback (str "./a.html") (str "fr") false
                world_unwritable_output))
     = fs world_unwritable_output
  /\ Forall (fun e => provider_of e = None)
       (events_since (length (trace world_unwritable_output))
          (snd (translate_html_file env_fallback (str "./a.html") (str "fr") false
                  world_unwritable_output))).
Proof.
  apply (translate_html_file_skips_existing env_fallback (str "./a.html") (str "fr")
           world_unwritable_output).
  exists Dir. by vm_compute.
Defined.

Lemma translate_html_file_skips_unreadable_witness :
  fst (translate_html_file env_fallback (str "./missing.html") (str "fr") true
         world_two_pages)
  = stopped env_fallback (fs world_two_pages)
  /\ fs (snd (translate_html_file env_fallback (str "./missing.html") (str "fr") true
                world_two_pages))
     = fs world_two_pages
  /\ Forall (fun e => provider_of e = None)
       (events_since (length (trace world_two_pages))
          (snd (translate_html_file env_fallback (str "./missing.html") (str "fr")
                  true world_two_pages))).
Proof.
  apply (translate_html_file_skips_unreadable env_fallback (str "./missing.html")
           (str "fr") true world_two_pages).
  by vm_compute.
Defined.

Lemma walk_keeps_the_shape_witness :
  exists soup' translation_count memory' w',
    walk env_links (str "index.html") (str "fr") soup_links (∅, no_files)
    = (Ok (soup', translation_count), (memory', w'))
    /\ fs w' = fs no_files
    /\ html_attrs soup'
       = (fun a => <[str "lang" := str "fr"]> a) <$> html_attrs soup_links
    /\ Forall2 (fun tag tag' =>
                  tag_name tag' = tag_name tag
                  /\ (tag_name tag <> str "a" -> tag_name tag <> str "img" ->
                      tag' = tag))
         (link_img_tags soup_links) (link_img_tags soup')
    /\ Forall2 (fun element element' =>
                  parent_name element' = parent_name element
                  /\ (parent_name element = str "script"
                      \/ parent_name element = str "style"
                      \/ strip (content element) = [] ->
                      element' = element))
         (strings soup_links) (strings soup')
    /\ head_appended soup' = (fun c => c ++ INJECT_HEAD) <$> head_appended soup_links
    /\ body_appended soup' = (fun c => c ++ INJECT_BODY) <$> body_appended soup_links
    /\ (translation_count <= length (strings soup_links))%nat.
Proof.
  apply (walk_keeps_the_shape env_links (str "index.html") (str "fr")
           (mkLang (str "French") (str "FR")) soup_links ∅ no_files).
  reflexivity.
Defined.

Lemma translate_html_file_touches_two_files_witness :
  fs (snd (translate_html_file env_fallback (str "./a.html") (str "fr") true
             world_two_pages)) !! str "./b.html"
  = fs world_two_pages !! str "./b.html".
Proof.
  apply (translate_html_file_touches_two_files env_fallback (str "./a.html")
           (str "fr") true world_two_pages (str "./b.html")).
  - apply (bool_decide_unpack _). by vm_compute.
  - apply (bool_decide_unpack _). by vm_compute.
Defined.


Lemma output_path_of_without_dot_html_witness :
  output_path_of (str "./index.htm") (str "fr") = str "./index.htm".
Proof.
  apply (output_path_of_without_dot_html (str "./index.htm") (str "fr")).
  reflexivity.
Defined.

Lemma localize_link_idempotent_witness :
  exists tag' w',
    localize_link (str "fr")
      (mkTag (str "a") {[ str "href" := str "about.html" ]}) no_files
    = (Ok tag', w')
    /\ forall w2, localize_link (str "fr") tag' w2 = (Ok tag', w2).
Proof.
  apply (localize_link_idempotent (str "fr") (mkLang (str "French") (str "FR"))
           (mkTag (str "a") {[ str "href" := str "about.html" ]}) no_files).
  reflexivity.
Defined.

Lemma process_each_file_touches_outputs_witness :
  fs (snd (process_each_file env_fallback [str "./a.html"] (str "fr") true
             world_two_pages)) !! str "./b.html"
  = fs world_two_pages !! str "./b.html".
Proof.
  apply (process_each_file_touches_outputs env_fallback [str "./a.html"] (str "fr")
           true world_two_pages (str "./b.html")).
  - apply (bool_decide_unpack _). by vm_compute.
  - intros file Hfile. apply list_elem_of_singleton in Hfile as ->.
    apply (bool_decide_unpack _). by vm_compute.
Defined.
